(** * CombustionEngine: residual and Jacobian contribution of the
      internal combustion engine component
      (tespy/components/combustion/combustion_engine.py)

    Numbers are IEEE-754 binary64 values, as Python's [float] and numpy's
    [float64] are; they are embedded as Rocq's primitive floats, so that every
    arithmetic expression below rounds exactly as the source does.  Python
    dictionaries keep their insertion order and the source iterates over
    them, so they are association lists.  Exceptions are values of [exn];
    code that mutates a buffer in place is a state transformer that keeps
    the buffer as it was when the exception was raised. *)

From Stdlib Require Import Floats String.
From stdpp Require Import base option list sets strings.

Set Warnings "-inexact-float".
Set Default Proof Using "Type".

Local Open Scope string_scope.
Local Open Scope list_scope.

(** ** Exceptions and results *)

Inductive exn :=
| KeyError (key : string)
| IndexError
| ValueError (msg : string)
| ZeroDivisionError
| RecursionError.

Inductive result (A : Type) :=
| Ok (a : A)
| Raise (e : exn).
Arguments Ok {A} a.
Arguments Raise {A} e.

#[global] Instance result_ret : MRet result := @Ok.
#[global] Instance result_bind : MBind result :=
  fun A B f r => match r with Ok a => f a | Raise e => Raise e end.
#[global] Instance result_fmap : FMap result :=
  fun A B f r => match r with Ok a => Ok (f a) | Raise e => Raise e end.

(** A buffer of type [S] mutated in place by code that may raise. *)
Definition M (S A : Type) : Type := S -> S * result A.

#[global] Instance M_ret {S} : MRet (M S) := fun A a s => (s, Ok a).
#[global] Instance M_bind {S} : MBind (M S) :=
  fun A B f c s =>
    match c s with
    | (s', Ok a) => f a s'
    | (s', Raise e) => (s', Raise e)
    end.

(** A computation that raises or returns without touching the buffer. *)
Definition lift {S A} (r : result A) : M S A := fun s => (s, r).

(** [for x in l: acc = body acc x] in either monad. *)
Fixpoint for_ {A B} (l : list A) (acc : B) (body : B -> A -> result B)
  : result B :=
  match l with
  | [] => Ok acc
  | x :: l' => acc' ← body acc x; for_ l' acc' body
  end.

Fixpoint forM {S A B} (l : list A) (acc : B) (body : B -> A -> M S B)
  : M S B :=
  match l with
  | [] => mret acc
  | x :: l' => acc' ← body acc x; forM l' acc' body
  end.

(** ** Python containers *)

(** [d[k]] on a dictionary. *)
Fixpoint getitem {A} (d : list (string * A)) (k : string) : result A :=
  match d with
  | [] => Raise (KeyError k)
  | (k', v) :: d' => if String.eqb k k' then Ok v else getitem d' k
  end.

(** [d[k] = v]: the key keeps its place, a new key goes last. *)
Fixpoint setitem {A} (d : list (string * A)) (k : string) (v : A)
  : list (string * A) :=
  match d with
  | [] => [(k, v)]
  | (k', v') :: d' =>
      if String.eqb k k' then (k', v) :: d' else (k', v') :: setitem d' k v
  end.

Definition keys {A} (d : list (string * A)) : list string := d.*1.

(** [k in d.keys()] *)
Definition contains {A} (d : list (string * A)) (k : string) : bool :=
  existsb (String.eqb k) (keys d).

(** [l[i]] on a list, for an index that is not negative. *)
Definition getidx {A} (l : list A) (i : nat) : result A :=
  match l !! i with
  | Some x => Ok x
  | None => Raise IndexError
  end.

(** [l.index(x)] for strings. *)
Fixpoint index (l : list string) (x : string) : result nat :=
  match l with
  | [] => Raise (ValueError "is not in list")
  | y :: l' => if String.eqb x y then Ok 0 else S <$> index l' x
  end.

(** Division of two Python numbers: a zero divisor raises. *)
Definition pydiv (a b : float) : result float :=
  if (b =? 0)%float then Raise ZeroDivisionError else Ok (a / b)%float.

(** ** Data model *)

(** A connection: [m], [p], [h] are [c.m.val_SI], [c.p.val_SI] and
    [c.h.val_SI]; [fluid_val] and [fluid_val_set] are [c.fluid.val] and
    [c.fluid.val_set]. *)
Record Connection := {
  m : float;
  p : float;
  h : float;
  fluid_val : list (string * float);
  fluid_val_set : list (string * bool);
  good_starting_values : bool
}.

(** [ComponentProperties] (dc_cp): a component parameter. *)
Record dc_cp := {
  val : float;
  design : float;
  is_set : bool;
  is_var : bool;
  var_pos : nat
}.

(** [CharLine] and [ComponentCharacteristics] (dc_cc); the evaluation of a
    characteristic line is a collaborator of this file. *)
Record CharLine := { evaluate : float -> float }.
Record dc_cc := { func : CharLine }.

(** An entry of [self.fuels]. *)
Record Fuel := { C : float; H : float; O : float; LHV : float }.

Record CombustionEngine := {
  label : string;
  inl : list Connection;
  outl : list Connection;
  (* attr() *)
  lamb : dc_cp; ti : dc_cp; P : dc_cp; Q1 : dc_cp; Q2 : dc_cp;
  Qloss : dc_cp; pr1 : dc_cp; pr2 : dc_cp; zeta1 : dc_cp; zeta2 : dc_cp;
  tiP_char : dc_cc; Q1_char : dc_cc; Q2_char : dc_cc; Qloss_char : dc_cc;
  (* set by Component.comp_init *)
  num_i : nat; num_o : nat; num_vars : nat;
  nw_fluids : list string; num_nw_fluids : nat; num_nw_vars : nat;
  it : nat; always_all_equations : bool;
  num_eq : nat;
  (* set by setup_reaction_parameters *)
  fuel_list : list string;
  fuels : list (string * Fuel);
  o2 : string; co2 : string; h2o : string; n2 : string
}.

(** ** Thermal input and energy balance *)

Definition T_ref : float := 298.15%float.
Definition p_ref : float := 1e5%float.

(** The flow vector [[0, p_ref, 0, c.fluid.val]] handed to [h_mix_pT]. *)
Definition ref_flow (c : Connection) : float * float * float * list (string * float) :=
  (0%float, p_ref, 0%float, fluid_val c).

Definition calc_ti (s : CombustionEngine) : result float :=
  for_ (fuel_list s) 0%float (fun ti f =>
    m0 ← for_ (drop 2 (inl s)) 0%float (fun m0 i =>
            x ← getitem (fluid_val i) f;
            mret (m0 + m i * x)%float);
    m1 ← for_ (drop 2 (outl s)) m0 (fun m1 o =>
            x ← getitem (fluid_val o) f;
            mret (m1 - m o * x)%float);
    fl ← getitem (fuels s) f;
    mret (ti + m1 * LHV fl)%float).

(** ** Collaborators

    What this file imports or inherits and does not define: the global
    tolerance [err] and the table [molar_masses] (tespy.tools.global_vars),
    the C library's [pow] behind Python's [**], the fluid property back end
    [h_mix_pT], the reaction balance, lambda and thermal input residuals of
    [CombustionChamber], and [zeta_func], [numeric_deriv] and
    [calc_bus_value] of [Component].  They are parameters of the model: no
    theorem below depends on what they compute.  [numeric_deriv] returns a
    number for the increments ['m'], ['p'], ['h'], ['P'], ['Qloss'] and a
    vector for ['fluid']; the two uses are two fields. *)

(** A row of [bus.comps] and a bus; a component is looked up by its label. *)
Record BusRow := { param : string }.
Record Bus := { comps : list (string * BusRow) }.

(** The fields [setup_reaction_parameters] assigns. *)
Record ReactionParameters := {
  rp_fuel_list : list string;
  rp_fuels : list (string * Fuel);
  rp_o2 : string; rp_co2 : string; rp_h2o : string; rp_n2 : string
}.

Record External := {
  err : float;
  pow : float -> float -> float;
  molar_masses : list (string * float);
  h_mix_pT :
    float * float * float * list (string * float) -> float -> bool -> float;
  reaction_balance : CombustionEngine -> string -> float;
  lambda_func : CombustionEngine -> float;
  ti_func : CombustionEngine -> float;
  zeta_func : string -> nat -> nat -> CombustionEngine -> float;
  rb_numeric_deriv : CombustionEngine -> string -> nat -> string -> float;
  rb_numeric_deriv_fluid : CombustionEngine -> nat -> string -> list float;
  numeric_deriv :
    CombustionEngine -> (CombustionEngine -> result float) -> string -> nat -> float;
  numeric_deriv_fluid :
    CombustionEngine -> (CombustionEngine -> result float) -> nat -> list float;
  calc_bus_value : Bus -> CombustionEngine -> result float;
  setup_reaction_parameters : CombustionEngine -> ReactionParameters
}.

Definition energy_balance (ext : External) (s : CombustionEngine)
  : result float :=
  let res := 0%float in
  res ← for_ (drop 2 (inl s)) res (fun res i =>
           mret (res + m i * (h i - h_mix_pT ext (ref_flow i) T_ref true))%float);
  res ← for_ (drop 2 (outl s)) res (fun res o =>
           mret (res - m o * (h o - h_mix_pT ext (ref_flow o) T_ref true))%float);
  t ← calc_ti s;
  let res := (res + t)%float in
  res ← for_ (seq 0 2) res (fun res i =>
           ci ← getidx (inl s) i;
           co ← getidx (outl s) i;
           mret (res - m ci * (h co - h ci))%float);
  mret (res + (val (P s) + val (Qloss s)))%float.

(** ** Residuals of the specified heat outputs *)

Definition Q1_func (s : CombustionEngine) : result float :=
  i ← getidx (inl s) 0;
  o ← getidx (outl s) 0;
  mret (m i * (h o - h i) + val (Q1 s))%float.

Definition Q2_func (s : CombustionEngine) : result float :=
  i ← getidx (inl s) 1;
  o ← getidx (outl s) 1;
  mret (m i * (h o - h i) + val (Q2 s))%float.

(** ** Characteristic couplings *)

(** [expr]: 1 when no design value of [P] is recorded (it is NaN then),
    else [self.P.val / self.P.design], a division of two Python numbers:
    with a design value of zero it raises. *)
Definition load_expr (s : CombustionEngine) : result float :=
  if is_nan (design (P s)) then Ok 1%float
  else pydiv (val (P s)) (design (P s)).

Definition tiP_char_func (s : CombustionEngine) : result float :=
  expr ← load_expr s;
  t ← calc_ti s;
  mret (t + evaluate (func (tiP_char s)) expr * val (P s))%float.

Definition Q1_char_func (s : CombustionEngine) : result float :=
  i ← getidx (inl s) 0;
  o ← getidx (outl s) 0;
  expr ← load_expr s;
  t ← calc_ti s;
  mret (t * evaluate (func (Q1_char s)) expr -
        evaluate (func (tiP_char s)) expr * m i * (h o - h i))%float.

Definition Q2_char_func (s : CombustionEngine) : result float :=
  i ← getidx (inl s) 1;
  o ← getidx (outl s) 1;
  expr ← load_expr s;
  t ← calc_ti s;
  mret (t * evaluate (func (Q2_char s)) expr -
        evaluate (func (tiP_char s)) expr * m i * (h o - h i))%float.

Definition Qloss_char_func (s : CombustionEngine) : result float :=
  expr ← load_expr s;
  t ← calc_ti s;
  mret (t * evaluate (func (Qloss_char s)) expr +
        evaluate (func (tiP_char s)) expr * val (Qloss s))%float.

(** The divisor of [calc_P] and [calc_Qloss] is a value of a
    characteristic line, a number of an array: that division follows
    binary64 and does not raise. *)
Definition calc_P (s : CombustionEngine) : result float :=
  expr ← load_expr s;
  t ← calc_ti s;
  mret (- t / evaluate (func (tiP_char s)) expr)%float.

Definition calc_Qloss (s : CombustionEngine) : result float :=
  expr ← load_expr s;
  t ← calc_ti s;
  mret (- t * evaluate (func (Qloss_char s)) expr /
        evaluate (func (tiP_char s)) expr)%float.

(** ** Balances of the cooling loops and of the mass flows *)

Definition fluid_func (s : CombustionEngine) : result (list float) :=
  for_ (seq 0 2) [] (fun residual i =>
    ci ← getidx (inl s) i;
    for_ (fluid_val ci) residual (fun residual '(fluid, x) =>
      co ← getidx (outl s) i;
      y ← getitem (fluid_val co) fluid;
      mret (residual ++ [(x - y)%float]))).

Definition mass_flow_func (s : CombustionEngine) : result (list float) :=
  residual ← for_ (seq 0 2) [] (fun residual i =>
    ci ← getidx (inl s) i;
    co ← getidx (outl s) i;
    mret (residual ++ [(m ci - m co)%float]));
  i2 ← getidx (inl s) 2;
  i3 ← getidx (inl s) 3;
  o2 ← getidx (outl s) 2;
  mret (residual ++ [(m i2 + m i3 - m o2)%float]).

(** The residuals [equations] writes in line: the two pressure equations
    of the combustion and the two specified pressure ratios. *)
Definition combustion_pressure_out (s : CombustionEngine) : result float :=
  i2 ← getidx (inl s) 2; o2 ← getidx (outl s) 2; mret (p i2 - p o2)%float.

Definition combustion_pressure_in (s : CombustionEngine) : result float :=
  i2 ← getidx (inl s) 2; i3 ← getidx (inl s) 3; mret (p i2 - p i3)%float.

Definition pr1_func (s : CombustionEngine) : result float :=
  i0 ← getidx (inl s) 0; o0 ← getidx (outl s) 0;
  mret (val (pr1 s) * p i0 - p o0)%float.

Definition pr2_func (s : CombustionEngine) : result float :=
  i1 ← getidx (inl s) 1; o1 ← getidx (outl s) 1;
  mret (val (pr2 s) * p i1 - p o1)%float.

(** ** numpy arrays

    A vector is a list and the three-dimensional Jacobian a list of rows,
    each a list of columns.  All indices in this file are non-negative, so
    an index is in range or raises [IndexError]. *)

Abbreviation Jac := (list (list (list float))).

Definition zeros (n : nat) : list float := replicate n 0%float.
Definition zeros3 (a b c : nat) : Jac := replicate a (replicate b (zeros c)).

(** The lengths of the columns of every row: equal for equal shapes. *)
Definition shape2 (row : list (list float)) : list nat := length <$> row.
Definition shape3 (J : Jac) : list (list nat) := shape2 <$> J.

(** [l[i] = x] *)
Definition setidx {A} (l : list A) (i : nat) (x : A) : result (list A) :=
  if decide (i < length l) then Ok (<[i:=x]> l) else Raise IndexError.

(** What numpy assigns to a slice of length [n] from [vals]: the values
    themselves, or a single value repeated. *)
Definition broadcast (n : nat) (vals : list float) : result (list float) :=
  if decide (length vals = n) then Ok vals
  else match vals with
       | [x] => Ok (replicate n x)
       | _ => Raise (ValueError "could not broadcast input array")
       end.

(** [r[a:b] = vals] *)
Definition set_slice (r : list float) (a b : nat) (vals : list float)
  : result (list float) :=
  let a' := a `min` length r in
  let n := (b `min` length r) - a' in
  vals' ← broadcast n vals;
  mret (take a' r ++ vals' ++ drop (a' + n) r).

(** [J[k, i, j] = v] *)
Definition set3 (J : Jac) (k i j : nat) (v : float) : result Jac :=
  row ← getidx J k;
  col ← getidx row i;
  col' ← setidx col j v;
  row' ← setidx row i col';
  setidx J k row'.

(** [J[k, i, j0:] = vals] *)
Definition set3_from (J : Jac) (k i j0 : nat) (vals : list float)
  : result Jac :=
  row ← getidx J k;
  col ← getidx row i;
  col' ← set_slice col j0 (length col) vals;
  row' ← setidx row i col';
  setidx J k row'.

(** [J[a:b] = block], for a block none of whose axes has length one. *)
Definition set_rows (J : Jac) (a b : nat) (block : Jac) : result Jac :=
  let a' := a `min` length J in
  let n := (b `min` length J) - a' in
  if decide (shape3 block = shape3 (take n (drop a' J)))
  then Ok (take a' J ++ block ++ drop (a' + n) J)
  else Raise (ValueError "could not broadcast input array").

(** The buffer operations as in-place updates. *)
Definition update {S} (f : S -> result S) : M S unit :=
  fun s => match f s with Ok s' => (s', Ok tt) | Raise e => (s, Raise e) end.

Definition read {S A} (f : S -> result A) : M S A := fun s => (s, f s).

Definition when_ {S} (b : bool) (c : M S unit) : M S unit :=
  if b then c else mret tt.

Definition jset (k i j : nat) (v : float) : M Jac unit :=
  update (fun J => set3 J k i j v).
Definition jset_from (k i j0 : nat) (vals : list float) : M Jac unit :=
  update (fun J => set3_from J k i j0 vals).
Definition rset (k : nat) (v : float) : M (list float) unit :=
  update (fun r => setidx r k v).
Definition rset_slice (a b : nat) (vals : list float) : M (list float) unit :=
  update (fun r => set_slice r a b vals).

(** Run a computation on a fresh local buffer and return the buffer. *)
Definition run_on {S} (s0 : S) (c : M S unit) : result S :=
  match c s0 with (s, Ok _) => Ok s | (_, Raise e) => Raise e end.

(** ** Residual vector *)

Section Engine.

Variable ext : External.

(** [np.absolute(x) > err ** 2 or self.it % 4 == 0 or
    self.always_all_equations], for [x = self.residual[k]]. *)
Definition recompute_condition (s : CombustionEngine) (x : float) : bool :=
  (pow ext (err ext) 2 <? abs x)%float
  || Nat.eqb (it s mod 4) 0 || always_all_equations s.

Definition recompute (s : CombustionEngine) (k : nat) : M (list float) bool :=
  read (fun r => x ← getidx r k; mret (recompute_condition s x)).

(** The three forms a row of [equations] takes; each returns the next
    row index.

    [self.residual[k:e] = f(); k += n] *)
Definition assign_slice (k e n : nat) (f : result (list float))
  : M (list float) nat :=
  vals ← lift f;
  rset_slice k e vals;;
  mret (k + n).

(** [self.residual[k] = f(); k += 1] *)
Definition assign (k : nat) (f : result float) : M (list float) nat :=
  v ← lift f;
  rset k v;;
  mret (k + 1).

(** [if (np.absolute(self.residual[k]) > err ** 2 or self.it % 4 == 0 or
         self.always_all_equations):
        self.residual[k] = f()
    k += 1] *)
Definition assign_selective (s : CombustionEngine) (k : nat)
    (f : result float) : M (list float) nat :=
  b ← recompute s k;
  when_ b (v ← lift f; rset k v);;
  mret (k + 1).

Definition equations (s : CombustionEngine) : M (list float) unit :=
  let k := 0 in
  (* equations for fluids in cooling loops *)
  k ← assign_slice k (num_nw_fluids s * 2) (num_nw_fluids s * 2)
        (fluid_func s);
  (* equations for mass flow *)
  k ← assign_slice k (k + 3) 3 (mass_flow_func s);
  (* equations for pressure balance in combustion *)
  k ← assign k (combustion_pressure_out s);
  k ← assign k (combustion_pressure_in s);
  (* equations for fluids in combustion chamber *)
  i0 ← lift (getidx (inl s) 0);
  k ← forM (keys (fluid_val i0)) k (fun k fluid =>
        assign_selective s k (Ok (reaction_balance ext s fluid)));
  (* equation for combustion engine energy balance *)
  k ← assign_selective s k (energy_balance ext s);
  (* equation for power to thermal input ratio from characteristic line *)
  k ← assign_selective s k (tiP_char_func s);
  (* equations for heat outputs from characteristic line *)
  k ← assign_selective s k (Q1_char_func s);
  k ← assign_selective s k (Q2_char_func s);
  (* equation for heat loss from characteristic line *)
  k ← assign_selective s k (Qloss_char_func s);
  (* equation for specified lambda *)
  k ← (if is_set (lamb s)
       then assign k (Ok (lambda_func ext s)) else mret k);
  (* equation for specified thermal input *)
  k ← (if is_set (ti s)
       then assign k (Ok (ti_func ext s)) else mret k);
  (* equations for specified heat ouptputs *)
  k ← (if is_set (Q1 s) then assign k (Q1_func s) else mret k);
  k ← (if is_set (Q2 s) then assign k (Q2_func s) else mret k);
  (* equations for specified pressure ratios at cooling loops *)
  k ← (if is_set (pr1 s) then assign k (pr1_func s) else mret k);
  k ← (if is_set (pr2 s) then assign k (pr2_func s) else mret k);
  (* equations for specified zeta values at cooling loops *)
  k ← (if is_set (zeta1 s)
       then assign_selective s k (Ok (zeta_func ext "zeta1" 0 0 s))
       else mret k);
  k ← (if is_set (zeta2 s)
       then assign_selective s k (Ok (zeta_func ext "zeta2" 1 1 s))
       else mret k);
  mret tt.

(** ** Jacobian *)

(** [increment_filter[i, j]] and [all(increment_filter[i, 3:])] *)
Definition flt (increment_filter : list (list bool)) (i j : nat)
  : M Jac bool :=
  lift (row ← getidx increment_filter i; getidx row j).

Definition flt_all (increment_filter : list (list bool)) (i : nat)
  : M Jac bool :=
  lift (row ← getidx increment_filter i; mret (forallb id (drop 3 row))).

(** The mass flow and composition columns of the ports [2, 3, 6] in row
    [k], as the four characteristic couplings and the thermal input write
    them. *)
Definition char_columns (s : CombustionEngine)
    (increment_filter : list (list bool))
    (f : CombustionEngine -> result float) (k : nat) : M Jac unit :=
  forM [2; 3; 6] tt (fun _ i =>
    b ← flt increment_filter i 0;
    when_ (negb b) (jset k i 0 (numeric_deriv ext s f "m" i));;
    b ← flt_all increment_filter i;
    when_ (negb b) (jset_from k i 3 (numeric_deriv_fluid ext s f i))).

Definition zeta_columns (s : CombustionEngine)
    (increment_filter : list (list bool))
    (f : CombustionEngine -> result float) (i o k : nat) : M Jac unit :=
  b ← flt increment_filter i 0;
  when_ (negb b) (jset k i 0 (numeric_deriv ext s f "m" i));;
  b ← flt increment_filter i 1;
  when_ (negb b) (jset k i 1 (numeric_deriv ext s f "p" i));;
  b ← flt increment_filter i 2;
  when_ (negb b) (jset k i 2 (numeric_deriv ext s f "h" i));;
  b ← flt increment_filter o 1;
  when_ (negb b) (jset k o 1 (numeric_deriv ext s f "p" o));;
  b ← flt increment_filter o 2;
  when_ (negb b) (jset k o 2 (numeric_deriv ext s f "h" o)).

Definition derivatives (s : CombustionEngine)
    (increment_filter : list (list bool)) : M Jac unit :=
  (* derivatives cooling water fluid, mass balance and pressure are static *)
  let k := num_nw_fluids s * 2 + 5 in
  (* derivatives for reaction balance *)
  k ← forM (nw_fluids s) k (fun k fluid =>
        (* fresh air and fuel inlets *)
        b ← flt increment_filter 2 0;
        when_ (negb b) (jset k 2 0 (rb_numeric_deriv ext s "m" 2 fluid));;
        b ← flt_all increment_filter 2;
        when_ (negb b) (jset_from k 2 3 (rb_numeric_deriv_fluid ext s 2 fluid));;
        b ← flt increment_filter 3 0;
        when_ (negb b) (jset k 3 0 (rb_numeric_deriv ext s "m" 3 fluid));;
        b ← flt_all increment_filter 3;
        when_ (negb b) (jset_from k 3 3 (rb_numeric_deriv_fluid ext s 3 fluid));;
        (* combustion outlet *)
        b ← flt increment_filter 6 0;
        when_ (negb b) (jset k 6 0 (rb_numeric_deriv ext s "m" 6 fluid));;
        b ← flt_all increment_filter 6;
        when_ (negb b) (jset_from k 6 3 (rb_numeric_deriv_fluid ext s 6 fluid));;
        mret (k + 1));
  (* derivatives for energy balance *)
  let f := energy_balance ext in
  (* mass flow cooling water *)
  forM [0; 1] tt (fun _ i =>
    v ← lift (o ← getidx (outl s) i; c ← getidx (inl s) i;
              mret (- (h o - h c))%float);
    jset k i 0 v);;
  (* mass flow and pressure for combustion reaction *)
  forM [2; 3; 6] tt (fun _ i =>
    b ← flt increment_filter i 0;
    when_ (negb b) (jset k i 0 (numeric_deriv ext s f "m" i));;
    b ← flt increment_filter i 1;
    when_ (negb b) (jset k i 1 (numeric_deriv ext s f "p" i)));;
  (* enthalpy *)
  forM (seq 0 4) tt (fun _ i =>
    c ← lift (getidx (inl s) i); jset k i 2 (m c));;
  forM (seq 0 3) tt (fun _ i =>
    o ← lift (getidx (outl s) i); jset k (i + 4) 2 (- m o)%float);;
  (* fluid composition *)
  forM (fuel_list s) tt (fun _ fl =>
    n ← lift (index (nw_fluids s) fl);
    let pos := 3 + n in
    fu ← lift (getitem (fuels s) fl);
    let lhv := LHV fu in
    c ← lift (getidx (inl s) 2); jset k 2 pos (m c * lhv)%float;;
    c ← lift (getidx (inl s) 3); jset k 3 pos (m c * lhv)%float;;
    o ← lift (getidx (outl s) 2); jset k 6 pos (- m o * lhv)%float);;
  (* power and heat loss *)
  when_ (is_var (P s))
    (jset k (7 + var_pos (P s)) 0 (numeric_deriv ext s f "P" 7));;
  when_ (is_var (Qloss s))
    (jset k (7 + var_pos (Qloss s)) 0 (numeric_deriv ext s f "Qloss" 7));;
  let k := k + 1 in
  (* derivatives for thermal input to power charactersitics *)
  let f := tiP_char_func in
  char_columns s increment_filter f k;;
  when_ (is_var (P s))
    (jset k (7 + var_pos (P s)) 0 (numeric_deriv ext s f "P" 7));;
  let k := k + 1 in
  (* derivatives for heat output 1 to power charactersitics *)
  let f := Q1_char_func in
  b ← flt increment_filter 0 0;
  when_ (negb b) (jset k 0 0 (numeric_deriv ext s f "m" 0));;
  b ← flt increment_filter 0 2;
  when_ (negb b) (jset k 0 2 (numeric_deriv ext s f "h" 0));;
  b ← flt increment_filter 4 2;
  when_ (negb b) (jset k 4 2 (numeric_deriv ext s f "h" 4));;
  char_columns s increment_filter f k;;
  when_ (is_var (P s))
    (jset k (7 + var_pos (P s)) 0 (numeric_deriv ext s f "P" 7));;
  let k := k + 1 in
  (* derivatives for heat output 2 to power charactersitics *)
  let f := Q2_char_func in
  b ← flt increment_filter 1 0;
  when_ (negb b) (jset k 1 0 (numeric_deriv ext s f "m" 1));;
  b ← flt increment_filter 1 2;
  when_ (negb b) (jset k 1 2 (numeric_deriv ext s f "h" 1));;
  b ← flt increment_filter 5 2;
  when_ (negb b) (jset k 5 2 (numeric_deriv ext s f "h" 5));;
  char_columns s increment_filter f k;;
  when_ (is_var (P s))
    (jset k (7 + var_pos (P s)) 0 (numeric_deriv ext s f "P" 7));;
  let k := k + 1 in
  (* derivatives for heat loss to power charactersitics *)
  let f := Qloss_char_func in
  char_columns s increment_filter f k;;
  when_ (is_var (P s))
    (jset k (7 + var_pos (P s)) 0 (numeric_deriv ext s f "P" 7));;
  when_ (is_var (Qloss s))
    (jset k (7 + var_pos (Qloss s)) 0 (numeric_deriv ext s f "Qloss" 7));;
  let k := k + 1 in
  (* derivatives for specified lambda *)
  k ← (if is_set (lamb s)
       then
         let f := fun s => Ok (lambda_func ext s) in
         b ← flt increment_filter 2 0;
         when_ (negb b) (jset k 2 0 (numeric_deriv ext s f "m" 2));;
         b ← flt_all increment_filter 2;
         when_ (negb b) (jset_from k 2 3 (numeric_deriv_fluid ext s f 2));;
         b ← flt increment_filter 3 0;
         when_ (negb b) (jset k 3 0 (numeric_deriv ext s f "m" 3));;
         b ← flt_all increment_filter 3;
         when_ (negb b) (jset_from k 3 3 (numeric_deriv_fluid ext s f 3));;
         mret (k + 1)
       else mret k);
  (* derivatives for specified thermal input *)
  k ← (if is_set (ti s)
       then
         let f := fun s => Ok (ti_func ext s) in
         forM [2; 3; 6] tt (fun _ i =>
           jset k i 0 (numeric_deriv ext s f "m" i);;
           jset_from k i 3 (numeric_deriv_fluid ext s f i));;
         mret (k + 1)
       else mret k);
  (* derivatives for specified heat outputs *)
  k ← (if is_set (Q1 s)
       then
         v ← lift (o ← getidx (outl s) 0; c ← getidx (inl s) 0;
                   mret (h o - h c)%float);
         jset k 0 0 v;;
         c ← lift (getidx (inl s) 0); jset k 0 2 (- m c)%float;;
         c ← lift (getidx (inl s) 0); jset k 4 2 (m c);;
         mret (k + 1)
       else mret k);
  k ← (if is_set (Q2 s)
       then
         v ← lift (o ← getidx (outl s) 1; c ← getidx (inl s) 1;
                   mret (h o - h c)%float);
         jset k 1 0 v;;
         c ← lift (getidx (inl s) 1); jset k 1 2 (- m c)%float;;
         c ← lift (getidx (inl s) 1); jset k 5 2 (m c);;
         mret (k + 1)
       else mret k);
  (* derivatives for specified pressure ratio at cooling loops *)
  k ← (if is_set (pr1 s)
       then jset k 0 1 (val (pr1 s));; jset k 4 1 (-1)%float;; mret (k + 1)
       else mret k);
  k ← (if is_set (pr2 s)
       then jset k 1 1 (val (pr2 s));; jset k 5 1 (-1)%float;; mret (k + 1)
       else mret k);
  (* derivatives for specified zeta values at cooling loops *)
  k ← (if is_set (zeta1 s)
       then
         let f := fun s => Ok (zeta_func ext "zeta1" 0 0 s) in
         zeta_columns s increment_filter f 0 4 k;;
         mret (k + 1)
       else mret k);
  k ← (if is_set (zeta2 s)
       then
         let f := fun s => Ok (zeta_func ext "zeta2" 1 1 s) in
         zeta_columns s increment_filter f 1 5 k;;
         mret (k + 1)
       else mret k);
  mret tt.

End Engine.

(** ** Static description of the component *)

Definition component : string := "combustion engine".
Definition inlets : list string := ["in1"; "in2"; "in3"; "in4"].
Definition outlets : list string := ["out1"; "out2"; "out3"].

(** ** Constant blocks of the Jacobian *)

Definition fluid_deriv (s : CombustionEngine) : result Jac :=
  run_on (zeros3 (num_nw_fluids s * 2) (7 + num_vars s) (num_nw_vars s))
    (forM (seq 0 (num_nw_fluids s)) tt (fun _ i =>
       jset i 0 (i + 3) 1%float;;
       jset i 4 (i + 3) (-1)%float);;
     (* [i] keeps the last value of the loop above; the loop below runs
        only when that loop ran *)
     let i := num_nw_fluids s - 1 in
     forM (seq 0 (num_nw_fluids s)) tt (fun _ j =>
       jset (i + 1 + j) 1 (j + 3) 1%float;;
       jset (i + 1 + j) 5 (j + 3) (-1)%float)).

Definition mass_flow_deriv (s : CombustionEngine) : result Jac :=
  run_on (zeros3 3 (7 + num_vars s) (num_nw_vars s))
    (forM (seq 0 2) tt (fun _ i => jset i i 0 1%float);;
     forM (seq 0 2) tt (fun _ j => jset j (num_i s + j) 0 (-1)%float);;
     jset 2 2 0 1%float;;
     jset 2 3 0 1%float;;
     jset 2 6 0 (-1)%float).

Definition pressure_deriv (s : CombustionEngine) : result Jac :=
  run_on (zeros3 2 (7 + num_vars s) (num_nw_vars s))
    (forM (seq 0 2) tt (fun _ k => jset k 2 1 1%float);;
     jset 0 6 1 (-1)%float;;
     jset 1 3 1 (-1)%float).

(** ** Initialisation *)

(** What the component reads of the network. *)
Record Network := {
  fluids : list string;
  nw_always_all_equations : bool
}.

Inductive LogLevel := INFO | ERROR.

Definition with_var_pos (c : dc_cp) (n : nat) : dc_cp :=
  {| val := val c; design := design c; is_set := is_set c;
     is_var := is_var c; var_pos := n |}.

(** Modelled from the spec: [Component.set_attr] with the value ['var'] is
    not part of this file.  Spec 4.2, [mark_variable()]: the parameter
    becomes a free unknown of the solve; [is_set] stays as it was, the spec
    keeping [is_set] and [is_var] exclusive. *)
Definition set_attr_var (c : dc_cp) : dc_cp :=
  {| val := val c; design := design c; is_set := is_set c;
     is_var := true; var_pos := var_pos c |}.

(** The parameter gets the next free-variable slot when it is free. *)
Definition register (c : dc_cp) (n : nat) : dc_cp * nat :=
  if is_var c then (with_var_pos c n, n + 1) else (c, n).

(** Modelled from the spec: [Component.comp_init], the generic part of
    [initialize(network)], is not part of this file.  Spec 4.2 and 4.4:
    every free parameter is given the next free-variable slot, in the
    order of [attr()], and their number is the component's private
    free-variable count; the ports are counted; the columns of a port are
    its properties [m], [p], [h] and one per fluid of the network; the
    iteration counter starts at zero and the driver's "always recompute"
    switch is recorded. *)
Definition Component_comp_init (s : CombustionEngine) (nw : Network)
  : CombustionEngine :=
  let n := 0 in
  let '(lamb', n) := register (lamb s) n in
  let '(ti', n) := register (ti s) n in
  let '(P', n) := register (P s) n in
  let '(Q1', n) := register (Q1 s) n in
  let '(Q2', n) := register (Q2 s) n in
  let '(Qloss', n) := register (Qloss s) n in
  let '(pr1', n) := register (pr1 s) n in
  let '(pr2', n) := register (pr2 s) n in
  let '(zeta1', n) := register (zeta1 s) n in
  let '(zeta2', n) := register (zeta2 s) n in
  {| label := label s; inl := inl s; outl := outl s;
     lamb := lamb'; ti := ti'; P := P'; Q1 := Q1'; Q2 := Q2';
     Qloss := Qloss'; pr1 := pr1'; pr2 := pr2';
     zeta1 := zeta1'; zeta2 := zeta2';
     tiP_char := tiP_char s; Q1_char := Q1_char s; Q2_char := Q2_char s;
     Qloss_char := Qloss_char s;
     num_i := length inlets; num_o := length outlets; num_vars := n;
     nw_fluids := fluids nw; num_nw_fluids := length (fluids nw);
     num_nw_vars := length (fluids nw) + 3;
     it := 0; always_all_equations := nw_always_all_equations nw;
     num_eq := 0;
     fuel_list := fuel_list s; fuels := fuels s;
     o2 := o2 s; co2 := co2 s; h2o := h2o s; n2 := n2 s |}.

Definition with_P_Qloss (s : CombustionEngine) (P' Qloss' : dc_cp)
  : CombustionEngine :=
  {| label := label s; inl := inl s; outl := outl s;
     lamb := lamb s; ti := ti s; P := P'; Q1 := Q1 s; Q2 := Q2 s;
     Qloss := Qloss'; pr1 := pr1 s; pr2 := pr2 s;
     zeta1 := zeta1 s; zeta2 := zeta2 s;
     tiP_char := tiP_char s; Q1_char := Q1_char s; Q2_char := Q2_char s;
     Qloss_char := Qloss_char s;
     num_i := num_i s; num_o := num_o s; num_vars := num_vars s;
     nw_fluids := nw_fluids s; num_nw_fluids := num_nw_fluids s;
     num_nw_vars := num_nw_vars s;
     it := it s; always_all_equations := always_all_equations s;
     num_eq := num_eq s;
     fuel_list := fuel_list s; fuels := fuels s;
     o2 := o2 s; co2 := co2 s; h2o := h2o s; n2 := n2 s |}.

Definition with_num_eq (s : CombustionEngine) (n : nat) : CombustionEngine :=
  {| label := label s; inl := inl s; outl := outl s;
     lamb := lamb s; ti := ti s; P := P s; Q1 := Q1 s; Q2 := Q2 s;
     Qloss := Qloss s; pr1 := pr1 s; pr2 := pr2 s;
     zeta1 := zeta1 s; zeta2 := zeta2 s;
     tiP_char := tiP_char s; Q1_char := Q1_char s; Q2_char := Q2_char s;
     Qloss_char := Qloss_char s;
     num_i := num_i s; num_o := num_o s; num_vars := num_vars s;
     nw_fluids := nw_fluids s; num_nw_fluids := num_nw_fluids s;
     num_nw_vars := num_nw_vars s;
     it := it s; always_all_equations := always_all_equations s;
     num_eq := n;
     fuel_list := fuel_list s; fuels := fuels s;
     o2 := o2 s; co2 := co2 s; h2o := h2o s; n2 := n2 s |}.

Definition with_reaction_parameters (s : CombustionEngine)
    (rp : ReactionParameters) : CombustionEngine :=
  {| label := label s; inl := inl s; outl := outl s;
     lamb := lamb s; ti := ti s; P := P s; Q1 := Q1 s; Q2 := Q2 s;
     Qloss := Qloss s; pr1 := pr1 s; pr2 := pr2 s;
     zeta1 := zeta1 s; zeta2 := zeta2 s;
     tiP_char := tiP_char s; Q1_char := Q1_char s; Q2_char := Q2_char s;
     Qloss_char := Qloss_char s;
     num_i := num_i s; num_o := num_o s; num_vars := num_vars s;
     nw_fluids := nw_fluids s; num_nw_fluids := num_nw_fluids s;
     num_nw_vars := num_nw_vars s;
     it := it s; always_all_equations := always_all_equations s;
     num_eq := num_eq s;
     fuel_list := rp_fuel_list rp; fuels := rp_fuels rp;
     o2 := rp_o2 rp; co2 := rp_co2 rp; h2o := rp_h2o rp; n2 := rp_n2 rp |}.

(** The two diagnostics of [comp_init]. *)
Definition msg_P (s : CombustionEngine) : string :=
  "The power output of combustion engines must be set! " ++
  "We are adding the power output of component " ++
  label s ++ " as custom variable of the system.".

Definition msg_Qloss (s : CombustionEngine) : string :=
  "The heat loss of combustion engines must be set! " ++
  "We are adding the heat loss of component " ++
  label s ++ " as custom variable of the system.".

(** The parameters whose equations are optional, as [comp_init] lists
    them. *)
Definition optional_parameters (s : CombustionEngine) : list dc_cp :=
  [lamb s; ti s; Q1 s; Q2 s; pr1 s; pr2 s; zeta1 s; zeta2 s].

(** What [comp_init] leaves behind: the component, [self.residual] and
    [self.jacobian]. *)
Record Initialised := {
  self : CombustionEngine;
  residual : list float;
  jacobian : Jac
}.

(** [comp_init] returns the records it has logged and the initialised
    component, or the exception raised. *)
Definition comp_init (ext : External) (s : CombustionEngine) (nw : Network)
  : list (LogLevel * string) * result Initialised :=
  let log := [] in
  let '(s, log) :=
    if negb (is_set (P s))
    then (with_P_Qloss s (set_attr_var (P s)) (Qloss s),
          log ++ [(INFO, msg_P s)])
    else (s, log) in
  let '(s, log) :=
    if negb (is_set (Qloss s))
    then (with_P_Qloss s (P s) (set_attr_var (Qloss s)),
          log ++ [(INFO, msg_Qloss s)])
    else (s, log) in
  let s := Component_comp_init s nw in
  (* number of mandatory equations *)
  let s := with_num_eq s
             (num_nw_fluids s * 2 + 3 + 2 + num_nw_fluids s + 5) in
  (* P and Qloss are not included, as the equations are mandatory anyway *)
  let s := foldl (fun s var =>
                    if is_set var then with_num_eq s (num_eq s + 1) else s)
                 s (optional_parameters s) in
  let jacobian :=
    zeros3 (num_eq s) (num_i s + num_o s + num_vars s) (num_nw_vars s) in
  let pos := num_nw_fluids s * 2 in
  let residual := zeros (num_eq s) in
  (log,
   block ← fluid_deriv s;
   jacobian ← set_rows jacobian 0 pos block;
   block ← mass_flow_deriv s;
   jacobian ← set_rows jacobian pos (pos + 3) block;
   block ← pressure_deriv s;
   jacobian ← set_rows jacobian (pos + 3) (pos + 5) block;
   let s := with_reaction_parameters s (setup_reaction_parameters ext s) in
   mret {| self := s; residual := residual; jacobian := jacobian |}).

(** ** Bus accounting *)

Definition invalid_bus_parameter (b : BusRow) : string :=
  "The parameter " ++ param b ++
  " is not a valid parameter for a " ++ component ++ ".".

(** [bus_func(bus)]: the value, or the error record and the exception. *)
Definition bus_func (s : CombustionEngine) (bus : BusRow)
  : list (LogLevel * string) * result float :=
  (* value for bus parameter of thermal input (TI) *)
  if String.eqb (param bus) "TI" then
    ([], calc_ti s)
  (* value for bus parameter of power output (P) *)
  else if String.eqb (param bus) "P" then
    ([], calc_P s)
  (* value for bus parameter of total heat production (Q) *)
  else if String.eqb (param bus) "Q" then
    ([], for_ (seq 0 2) 0%float (fun val j =>
           i ← getidx (inl s) j;
           o ← getidx (outl s) j;
           mret (val - m i * (h o - h i))%float))
  (* value for bus parameter of heat production 1 (Q1) *)
  else if String.eqb (param bus) "Q1" then
    ([], i ← getidx (inl s) 0;
         o ← getidx (outl s) 0;
         mret (- m i * (h o - h i))%float)
  (* value for bus parameter of heat production 2 (Q2) *)
  else if String.eqb (param bus) "Q2" then
    ([], i ← getidx (inl s) 1;
         o ← getidx (outl s) 1;
         mret (- m i * (h o - h i))%float)
  (* value for bus parameter of heat loss (Qloss) *)
  else if String.eqb (param bus) "Qloss" then
    ([], calc_Qloss s)
  (* missing/invalid bus parameter *)
  else
    let msg := invalid_bus_parameter bus in
    ([(ERROR, msg)], Raise (ValueError msg)).

Definition bus_deriv (ext : External) (s : CombustionEngine) (bus : Bus)
  : list (LogLevel * string) * result Jac :=
  let deriv := zeros3 1 (7 + num_vars s) (num_nw_vars s) in
  let f := calc_bus_value ext bus in
  match getitem (comps bus) (label s) with
  | Raise e => ([], Raise e)
  | Ok b =>
    let mass_and_fluid : M Jac unit :=
      forM [2; 3; 6] tt (fun _ i =>
        jset 0 i 0 (numeric_deriv ext s f "m" i);;
        jset_from 0 i 3 (numeric_deriv_fluid ext s f i)) in
    (* derivatives for bus parameter of thermal input (TI) *)
    if String.eqb (param b) "TI" then
      ([], run_on deriv mass_and_fluid)
    (* derivatives for bus parameter of power production (P) or
       heat loss (Qloss) *)
    else if String.eqb (param b) "P" || String.eqb (param b) "Qloss" then
      ([], run_on deriv
             (mass_and_fluid;;
              (* variable power *)
              when_ (is_var (P s))
                (jset 0 (7 + var_pos (P s)) 0
                   (numeric_deriv ext s f "P" 7))))
    (* derivatives for bus parameter of total heat production (Q) *)
    else if String.eqb (param b) "Q" then
      ([], run_on deriv
             (forM (seq 0 2) tt (fun _ i =>
                jset 0 i 0 (numeric_deriv ext s f "m" i);;
                jset 0 i 2 (numeric_deriv ext s f "h" i);;
                jset 0 (i + 4) 2 (numeric_deriv ext s f "h" (i + 4)))))
    (* derivatives for bus parameter of heat production 1 (Q1) *)
    else if String.eqb (param b) "Q1" then
      ([], run_on deriv
             (jset 0 0 0 (numeric_deriv ext s f "m" 0);;
              jset 0 0 2 (numeric_deriv ext s f "h" 0);;
              jset 0 4 2 (numeric_deriv ext s f "h" 4)))
    (* derivatives for bus parameter of heat production 2 (Q2) *)
    else if String.eqb (param b) "Q2" then
      ([], run_on deriv
             (jset 0 1 0 (numeric_deriv ext s f "m" 1);;
              jset 0 1 2 (numeric_deriv ext s f "h" 1);;
              jset 0 5 2 (numeric_deriv ext s f "h" 5)))
    (* missing/invalid bus parameter *)
    else
      let msg := invalid_bus_parameter b in
      ([(ERROR, msg)], Raise (ValueError msg))
  end.

(** The names [bus_func] and [bus_deriv] accept. *)
Definition bus_parameters : list string :=
  ["TI"; "P"; "Q"; "Q1"; "Q2"; "Qloss"].

(** ** Starting values of the flue gas composition *)

Definition with_fluid_val (c : Connection) (v : list (string * float))
  : Connection :=
  {| m := m c; p := p c; h := h c; fluid_val := v;
     fluid_val_set := fluid_val_set c;
     good_starting_values := good_starting_values c |}.

(** The dictionary [fg] of [initialise_fluids].  The values it works on are
    Python numbers (the fractions the user has given, the molar masses and
    the data of the fuels), so a division by zero raises. *)
Definition flue_gas (ext : External) (s : CombustionEngine)
  : result (list (string * float)) :=
  let N_2 := 0.7655%float in
  let O_2 := 0.2345%float in
  let n_fuel := 1%float in
  let lamb := 3%float in
  '(fact_fuel, sum_fuel) ←
    for_ (fuel_list s) ([], 0%float) (fun '(fact_fuel, sum_fuel) f =>
      let fact_fuel := setitem fact_fuel f 0%float in
      fact_fuel ← for_ (inl s) fact_fuel (fun fact_fuel i =>
        a ← getitem fact_fuel f;
        x ← getitem (fluid_val i) f;
        mret (setitem fact_fuel f (a + x / 2)%float));
      a ← getitem fact_fuel f;
      mret (fact_fuel, (sum_fuel + a)%float));
  fact_fuel ← for_ (fuel_list s) fact_fuel (fun fact_fuel f =>
    a ← getitem fact_fuel f;
    q ← pydiv a sum_fuel;
    mret (setitem fact_fuel f q));
  '(m_co2, m_h2o, m_fuel) ←
    for_ (fuel_list s) (0%float, 0%float, 0%float)
      (fun '(m_co2, m_h2o, m_fuel) f =>
        fu ← getitem (fuels s) f;
        M_co2 ← getitem (molar_masses ext) (co2 s);
        a ← getitem fact_fuel f;
        let m_co2 := (m_co2 + n_fuel * C fu * M_co2 * a)%float in
        fu ← getitem (fuels s) f;
        M_h2o ← getitem (molar_masses ext) (h2o s);
        a ← getitem fact_fuel f;
        let m_h2o := (m_h2o + n_fuel * H fu / 2 * M_h2o * a)%float in
        M_f ← getitem (molar_masses ext) f;
        a ← getitem fact_fuel f;
        let m_fuel := (m_fuel + n_fuel * M_f * a)%float in
        mret (m_co2, m_h2o, m_fuel));
  M_co2 ← getitem (molar_masses ext) (co2 s);
  q1 ← pydiv m_co2 M_co2;
  M_h2o ← getitem (molar_masses ext) (h2o s);
  q2 ← pydiv (0.5 * m_h2o)%float M_h2o;
  let n_o2 := ((q1 + q2) * lamb)%float in
  M_o2 ← getitem (molar_masses ext) (o2 s);
  let m_air := (n_o2 * M_o2 / O_2)%float in
  let m_fg := (m_air + m_fuel)%float in
  M_o2 ← getitem (molar_masses ext) (o2 s);
  let m_o2 := (n_o2 * M_o2 * (1 - 1 / lamb))%float in
  let m_n2 := (N_2 * m_air)%float in
  x_n2 ← pydiv m_n2 m_fg;
  x_co2 ← pydiv m_co2 m_fg;
  x_o2 ← pydiv m_o2 m_fg;
  x_h2o ← pydiv m_h2o m_fg;
  mret (setitem (setitem (setitem (setitem [] (n2 s) x_n2) (co2 s) x_co2)
                   (o2 s) x_o2) (h2o s) x_h2o).

(** ** Propagation of the fluid composition through the network

    Connections are shared objects: they live in a store and are named by
    their identities, as components are.  A call that exceeds the depth
    [fuel] of the interpreter's stack raises [RecursionError]. *)

Abbreviation Store := (nat -> Connection).

Inductive Node :=
| Engine (inl outl : list nat)
| Other (inl outl : list nat).

Record Topology := {
  node : nat -> Node;
  source : nat -> nat;
  target : nat -> nat
}.

Definition store_fluid (c : nat) (fluid : string) (x : float) : M Store unit :=
  fun st =>
    (fun c' => if Nat.eqb c' c
               then with_fluid_val (st c) (setitem (fluid_val (st c)) fluid x)
               else st c',
     Ok tt).

(** The loop both methods run: the items of [src.fluid.val] go to [dst]
    where [dst] has neither a set value nor good starting values. *)
Definition copy_fluid (src dst : nat) : M Store unit :=
  items ← read (fun st => Ok (fluid_val (st src)));
  forM items tt (fun _ '(fluid, x) =>
    b ← read (fun st => getitem (fluid_val_set (st dst)) fluid);
    g ← read (fun st => Ok (good_starting_values (st dst)));
    when_ (negb b && negb g) (store_fluid dst fluid x)).

(** The two methods of the engine; [call] is the method of the same name
    of the component it is applied to. *)
Definition Engine_propagate_fluid_to_target
    (call : nat -> nat -> nat -> M Store unit) (net : Topology)
    (outl : list nat) (inconn start : nat) : M Store unit :=
  forM (take 2 outl) tt (fun _ outconn =>
    copy_fluid inconn outconn;;
    call (target net outconn) outconn start).


(** Modelled from the spec: the propagation methods of the components of
    other classes are not part of this file.  Spec 4.5: the propagation
    recurses through the network "with a stop at origin guard": such a
    component returns at once when it is the starting point, and
    otherwise passes the composition on to each of its outlets (inlets)
    and to the component behind it. *)
Definition Other_propagate
    (call : nat -> nat -> nat -> M Store unit) (next : nat -> nat)
    (self : nat) (ports : list nat) (conn start : nat) : M Store unit :=
  if Nat.eqb self start then mret tt
  else forM ports tt (fun _ c =>
         copy_fluid conn c;;
         call (next c) c start).

Fixpoint propagate_fluid_to_target (fuel : nat) (net : Topology)
    (self inconn start : nat) : M Store unit :=
  match fuel with
  | 0 => lift (Raise RecursionError)
  | S fuel =>
      let call := propagate_fluid_to_target fuel net in
      match node net self with
      | Engine _ outl =>
          Engine_propagate_fluid_to_target call net outl inconn start
      | Other _ outl =>
          Other_propagate call (target net) self outl inconn start
      end
  end.


(** [initialise_fluids].  The engine [s] is the component as the method
    finds it, with its inlets, which the method only reads; [outl] are
    the identities of [self.outl].  The starting values are written into
    the flue gas connection [self.outl[2]] in the store, and that
    connection is handed to [propagate_fluid_to_target] of its target,
    with the target as the starting point; [call] is that method. *)
Definition initialise_fluids (ext : External) (s : CombustionEngine)
    (call : nat -> nat -> nat -> M Store unit) (net : Topology)
    (outl : list nat) : M Store unit :=
  fg ← lift (flue_gas ext s);
  o ← lift (getidx outl 2);
  items ← read (fun st => Ok (fluid_val (st o)));
  forM items tt (fun _ '(fluid, x) =>
    b ← read (fun st => getitem (fluid_val_set (st o)) fluid);
    when_ (negb b && contains fg fluid)
      (y ← lift (getitem fg fluid);
       store_fluid o fluid y));;
  call (target net o) o (target net o).


(** ** Reference definitions used by the statements *)

(** The mass fraction of [f] in [c], and the lower heating value of [f];
    zero where the dictionary has no such key. *)
Definition fraction (c : Connection) (f : string) : float :=
  match getitem (fluid_val c) f with Ok x => x | Raise _ => 0%float end.

Definition lower_heating_value (s : CombustionEngine) (f : string) : float :=
  match getitem (fuels s) f with Ok fu => LHV fu | Raise _ => 0%float end.

(** Thermal input: the net mass flow of every fuel over the combustion
    ports [in3], [in4] and [out3], weighted with its lower heating value. *)
Definition thermal_input (s : CombustionEngine) (in3 in4 out3 : Connection)
  : float :=
  fold_left
    (fun t f =>
       (t + (0 + m in3 * fraction in3 f + m in4 * fraction in4 f
               - m out3 * fraction out3 f) * lower_heating_value s f)%float)
    (fuel_list s) 0%float.

(** Every fuel is a key of the composition of [c] and of [self.fuels]. *)
Definition fuels_known (s : CombustionEngine) (cs : list Connection) : bool :=
  forallb (fun f =>
             contains (fuels s) f
             && forallb (fun c => contains (fluid_val c) f) cs)
          (fuel_list s).

(** The enthalpy of the composition of [c] at the reference state. *)
Definition h_ref (ext : External) (c : Connection) : float :=
  h_mix_pT ext (0%float, 1e5%float, 0%float, fluid_val c) 298.15%float true.

(** [P / P_design], or 1 when no design value is recorded. *)
Definition load_ratio (s : CombustionEngine) : float :=
  if is_nan (design (P s)) then 1%float
  else (val (P s) / design (P s))%float.

(** The load ratio is defined: no design value of [P] is recorded, or
    the recorded one is not zero. *)
Definition nonzero_design (s : CombustionEngine) : bool :=
  is_nan (design (P s)) || negb (design (P s) =? 0)%float.

(** The fraction the loop of [initialise_fluids] leaves for the fluid [f]
    of the connection [o]: that of the dictionary [fg] where the fluid is
    not set and the dictionary has it, else the one it had. *)
Definition guess (fg : list (string * float)) (o : nat) (st : nat -> Connection)
    (f : string) : result float :=
  match getitem (fluid_val_set (st o)) f, getitem fg f with
  | Ok false, Ok y => Ok y
  | _, _ => getitem (fluid_val (st o)) f
  end.

(** How many parameters of a list are set, and how many are free. *)
Fixpoint count_set (l : list dc_cp) : nat :=
  match l with
  | [] => 0
  | c :: l' => (if is_set c then 1 else 0) + count_set l'
  end.

Fixpoint count_var (l : list dc_cp) : nat :=
  match l with
  | [] => 0
  | c :: l' => (if is_var c then 1 else 0) + count_var l'
  end.

(** The parameters of [attr()] that can be free unknowns. *)
Definition parameters (s : CombustionEngine) : list dc_cp :=
  [lamb s; ti s; P s; Q1 s; Q2 s; Qloss s; pr1 s; pr2 s; zeta1 s; zeta2 s].

(** The residuals of the composition of one cooling loop: for each fluid
    of the inlet, its fraction there less its fraction at the outlet. *)
Definition loop_residuals (i o : Connection) : list float :=
  (fun y => (y.2 - fraction o y.1)%float) <$> fluid_val i.

(** ** The rows of the residual vector

    The equations of the component in the order of [equations], each with
    the residual function that computes it. *)
Inductive Row :=
| FluidBalance | MassFlowBalance | PressureEquality
| ReactionBalance (fluid : string) | EnergyBalance
| TiPChar | Q1Char | Q2Char | QlossChar
| LambdaTarget | TiTarget | Q1Target | Q2Target | Pr1Target | Pr2Target
| Zeta1Target | Zeta2Target.

(** The rows [equations] recomputes only on the condition
    [recompute_condition]; it recomputes the others at every call. *)
Definition selective (row : Row) : bool :=
  match row with
  | ReactionBalance _ | EnergyBalance
  | TiPChar | Q1Char | Q2Char | QlossChar
  | Zeta1Target | Zeta2Target => true
  | _ => false
  end.

(** The rows a function that returns a vector fills. *)
Definition block (row : Row) (f : result (list float))
  : list (Row * result float) :=
  match f with
  | Ok vals => (fun v => (row, Ok v)) <$> vals
  | Raise e => [(row, Raise e)]
  end.

(** The row of a parameter, present when the parameter is set. *)
Definition optional (c : dc_cp) (row : Row) (f : result float)
  : list (Row * result float) :=
  if is_set c then [(row, f)] else [].

Definition rows_after_fluid (ext : External) (s : CombustionEngine)
  : list (Row * result float) :=
  block MassFlowBalance (mass_flow_func s) ++
  [(PressureEquality, combustion_pressure_out s)] ++
  [(PressureEquality, combustion_pressure_in s)] ++
  match getidx (inl s) 0 with
  | Ok i0 => (fun fluid => (ReactionBalance fluid,
                            Ok (reaction_balance ext s fluid)))
             <$> keys (fluid_val i0)
  | Raise e => []
  end ++
  [(EnergyBalance, energy_balance ext s)] ++
  [(TiPChar, tiP_char_func s)] ++
  [(Q1Char, Q1_char_func s)] ++
  [(Q2Char, Q2_char_func s)] ++
  [(QlossChar, Qloss_char_func s)] ++
  optional (lamb s) LambdaTarget (Ok (lambda_func ext s)) ++
  optional (ti s) TiTarget (Ok (ti_func ext s)) ++
  optional (Q1 s) Q1Target (Q1_func s) ++
  optional (Q2 s) Q2Target (Q2_func s) ++
  optional (pr1 s) Pr1Target (pr1_func s) ++
  optional (pr2 s) Pr2Target (pr2_func s) ++
  optional (zeta1 s) Zeta1Target (Ok (zeta_func ext "zeta1" 0 0 s)) ++
  optional (zeta2 s) Zeta2Target (Ok (zeta_func ext "zeta2" 1 1 s)).

Definition rows (ext : External) (s : CombustionEngine)
  : list (Row * result float) :=
  block FluidBalance (fluid_func s) ++ rows_after_fluid ext s.

(** What a call of [equations] leaves in a row that held [old]. *)
Definition update_row (ext : External) (s : CombustionEngine)
    (row : Row * result float) (old : float) : float :=
  match row.2 with
  | Ok v =>
      if selective row.1 && negb (recompute_condition ext s old)
      then old else v
  | Raise _ => old
  end.

Fixpoint apply_rows (upd : Row * result float -> float -> float)
    (rs : list (Row * result float)) (r : list float) : list float :=
  match rs, r with
  | row :: rs', old :: r' => upd row old :: apply_rows upd rs' r'
  | _, _ => r
  end.

(** The state of a component between [comp_init] and a call of
    [equations]: four inlets and three outlets, every connection with a
    mass fraction for each fluid of the network, in the order of the
    network, every fuel a fluid of the network with its data, and the
    number of equations [comp_init] has counted. *)
Definition well_formed (s : CombustionEngine) : Prop :=
  length (inl s) = 4 /\ length (outl s) = 3 /\
  num_nw_fluids s = length (nw_fluids s) /\
  (forall c, c ∈ inl s ++ outl s -> keys (fluid_val c) = nw_fluids s) /\
  (forall f, f ∈ fuel_list s ->
     f ∈ nw_fluids s /\ contains (fuels s) f = true) /\
  num_eq s = num_nw_fluids s * 2 + 3 + 2 + num_nw_fluids s + 5
             + count_set (optional_parameters s).

(** [appends ext s r c new]: started at the row after the rows [done],
    on the residual vector those rows have left of [r], the computation
    [c] handles the rows [new] and returns the index of the next row.
    [finishes] is the same for a computation that ends [equations]. *)
Definition appends (ext : External) (s : CombustionEngine) (r : list float)
    (c : nat -> M (list float) nat) (new : list (Row * result float)) : Prop :=
  forall done, length done + length new <= length r ->
    c (length done) (apply_rows (update_row ext s) done r)
    = (apply_rows (update_row ext s) (done ++ new) r,
       Ok (length done + length new)).

Definition finishes (ext : External) (s : CombustionEngine) (r : list float)
    (c : nat -> M (list float) unit) (new : list (Row * result float)) : Prop :=
  forall done, length done + length new <= length r ->
    c (length done) (apply_rows (update_row ext s) done r)
    = (apply_rows (update_row ext s) (done ++ new) r, Ok tt).

(** Zero of either sign: what compares equal to zero. *)
Definition zeroish (x : float) : Prop := x = 0%float \/ x = (-0)%float.

(** No fuel has a mass fraction other than zero at an inlet: a lookup
    yields zero, or raises. *)
Definition no_fuel (s : CombustionEngine) : Prop :=
  forall f i, f ∈ fuel_list s -> i ∈ inl s ->
    match getitem (fluid_val i) f with Ok x => zeroish x | Raise _ => True end.

(** ** Examples *)

Definition no_cp : dc_cp :=
  {| val := nan; design := nan; is_set := false; is_var := false;
     var_pos := 0 |}.

Definition cp_set (x : float) : dc_cp :=
  {| val := x; design := nan; is_set := true; is_var := false;
     var_pos := 0 |}.

Definition unit_char : dc_cc := {| func := {| evaluate := fun _ => 1%float |} |}.

(** A connection with mass flow [x] that carries methane and water. *)
Definition conn (x hh ch4 water : float) : Connection :=
  {| m := x; p := 1e5%float; h := hh;
     fluid_val := [("CH4", ch4); ("H2O", water)];
     fluid_val_set := [("CH4", false); ("H2O", false)];
     good_starting_values := false |}.

Definition methane : Fuel :=
  {| C := 1%float; H := 4%float; O := 0%float; LHV := 50e6%float |}.

Definition engine (inl outl : list Connection) : CombustionEngine :=
  {| label := "chp"; inl := inl; outl := outl;
     lamb := no_cp; ti := no_cp; P := cp_set (-1e6)%float; Q1 := no_cp;
     Q2 := no_cp; Qloss := cp_set (-1e5)%float; pr1 := no_cp; pr2 := no_cp;
     zeta1 := no_cp; zeta2 := no_cp;
     tiP_char := unit_char; Q1_char := unit_char; Q2_char := unit_char;
     Qloss_char := unit_char;
     num_i := 4; num_o := 3; num_vars := 0;
     nw_fluids := ["CH4"; "H2O"]; num_nw_fluids := 2; num_nw_vars := 5;
     it := 1; always_all_equations := false;
     num_eq := 16;
     fuel_list := ["CH4"]; fuels := [("CH4", methane)];
     o2 := "O2"; co2 := "CO2"; h2o := "H2O"; n2 := "N2" |}.

(** A bus that asks the engine for a parameter it does not have. *)
Definition unknown_bus_row : BusRow := {| param := "X" |}.
Definition unknown_bus : Bus := {| comps := [("chp", unknown_bus_row)] |}.


(** An engine none of whose inlets carries fuel. *)
Definition no_fuel_scenario : CombustionEngine :=
  engine [conn 5 0 0 1; conn 3 0 0 1; conn 0.2 0 0 0; conn 0.1 0 0 1]
         [conn 5 0 0 1; conn 3 0 0 1; conn 0.3 0 0 0].

(** The scenario of the mass flow balance: inlets 5, 3, 0.2, 0.1 and
    outlets 5, 3, 0.3. *)
Definition mass_flow_scenario : CombustionEngine :=
  engine [conn 5 0 0 1; conn 3 0 0 1; conn 0.2 0 0 0; conn 0.1 0 1 0]
         [conn 5 0 0 1; conn 3 0 0 1; conn 0.3 0 0 0].

(** The engine of the mass flow scenario with the heat output [Q1]
    specified: one equation more. *)
Definition heat_target_scenario : CombustionEngine :=
  let s := mass_flow_scenario in
  {| label := label s; inl := inl s; outl := outl s;
     lamb := lamb s; ti := ti s; P := P s; Q1 := cp_set (-4e5)%float;
     Q2 := Q2 s; Qloss := Qloss s; pr1 := pr1 s; pr2 := pr2 s;
     zeta1 := zeta1 s; zeta2 := zeta2 s;
     tiP_char := tiP_char s; Q1_char := Q1_char s; Q2_char := Q2_char s;
     Qloss_char := Qloss_char s;
     num_i := num_i s; num_o := num_o s; num_vars := num_vars s;
     nw_fluids := nw_fluids s; num_nw_fluids := num_nw_fluids s;
     num_nw_vars := num_nw_vars s;
     it := it s; always_all_equations := always_all_equations s;
     num_eq := 17;
     fuel_list := fuel_list s; fuels := fuels s;
     o2 := o2 s; co2 := co2 s; h2o := h2o s; n2 := n2 s |}.

(** The engine of the mass flow scenario as [comp_init] leaves the
    iteration counter: at zero. *)
Definition first_iteration_scenario : CombustionEngine :=
  let s := mass_flow_scenario in
  {| label := label s; inl := inl s; outl := outl s;
     lamb := lamb s; ti := ti s; P := P s; Q1 := Q1 s;
     Q2 := Q2 s; Qloss := Qloss s; pr1 := pr1 s; pr2 := pr2 s;
     zeta1 := zeta1 s; zeta2 := zeta2 s;
     tiP_char := tiP_char s; Q1_char := Q1_char s; Q2_char := Q2_char s;
     Qloss_char := Qloss_char s;
     num_i := num_i s; num_o := num_o s; num_vars := num_vars s;
     nw_fluids := nw_fluids s; num_nw_fluids := num_nw_fluids s;
     num_nw_vars := num_nw_vars s;
     it := 0; always_all_equations := always_all_equations s;
     num_eq := num_eq s;
     fuel_list := fuel_list s; fuels := fuels s;
     o2 := o2 s; co2 := co2 s; h2o := h2o s; n2 := n2 s |}.

(** The engine of the mass flow scenario with a design value of zero
    recorded for the power. *)
Definition zero_design_scenario : CombustionEngine :=
  let s := mass_flow_scenario in
  {| label := label s; inl := inl s; outl := outl s;
     lamb := lamb s; ti := ti s;
     P := {| val := (-1e6)%float; design := 0%float; is_set := true;
             is_var := false; var_pos := 0 |};
     Q1 := Q1 s; Q2 := Q2 s; Qloss := Qloss s; pr1 := pr1 s; pr2 := pr2 s;
     zeta1 := zeta1 s; zeta2 := zeta2 s;
     tiP_char := tiP_char s; Q1_char := Q1_char s; Q2_char := Q2_char s;
     Qloss_char := Qloss_char s;
     num_i := num_i s; num_o := num_o s; num_vars := num_vars s;
     nw_fluids := nw_fluids s; num_nw_fluids := num_nw_fluids s;
     num_nw_vars := num_nw_vars s;
     it := it s; always_all_equations := always_all_equations s;
     num_eq := num_eq s;
     fuel_list := fuel_list s; fuels := fuels s;
     o2 := o2 s; co2 := co2 s; h2o := h2o s; n2 := n2 s |}.

(** An engine without fuel flow whose first cooling loop takes up heat,
    with a characteristic line of the thermal input that is 0.1
    throughout. *)
Definition rounding_scenario : CombustionEngine :=
  let s := engine [conn 0.2 0 0 1; conn 3 0 0 1; conn 0.2 0 0 0;
                   conn 0.1 0 0 1]
                  [conn 0.2 0.3 0 1; conn 3 0 0 1; conn 0.3 0 0 0] in
  {| label := label s; inl := inl s; outl := outl s;
     lamb := lamb s; ti := ti s; P := P s; Q1 := Q1 s;
     Q2 := Q2 s; Qloss := Qloss s; pr1 := pr1 s; pr2 := pr2 s;
     zeta1 := zeta1 s; zeta2 := zeta2 s;
     tiP_char := {| func := {| evaluate := fun _ => 0.1%float |} |};
     Q1_char := Q1_char s; Q2_char := Q2_char s;
     Qloss_char := Qloss_char s;
     num_i := num_i s; num_o := num_o s; num_vars := num_vars s;
     nw_fluids := nw_fluids s; num_nw_fluids := num_nw_fluids s;
     num_nw_vars := num_nw_vars s;
     it := it s; always_all_equations := always_all_equations s;
     num_eq := num_eq s;
     fuel_list := fuel_list s; fuels := fuels s;
     o2 := o2 s; co2 := co2 s; h2o := h2o s; n2 := n2 s |}.

Definition no_collaborators : External :=
  {| err := 1e-6%float;
     pow := fun x _ => (x * x)%float;
     molar_masses := [("CH4", 0.016%float); ("O2", 0.032%float);
                      ("CO2", 0.044%float); ("H2O", 0.018%float);
                      ("N2", 0.028%float)];
     h_mix_pT := fun _ _ _ => 0%float;
     reaction_balance := fun _ _ => 0%float;
     lambda_func := fun _ => 0%float;
     ti_func := fun _ => 0%float;
     zeta_func := fun _ _ _ _ => 0%float;
     rb_numeric_deriv := fun _ _ _ _ => 1%float;
     rb_numeric_deriv_fluid := fun s _ _ => replicate (num_nw_fluids s) 1%float;
     numeric_deriv := fun _ _ _ _ => 1%float;
     numeric_deriv_fluid := fun s _ _ => replicate (num_nw_fluids s) 1%float;
     calc_bus_value := fun _ _ => Ok 0%float;
     setup_reaction_parameters := fun s =>
       {| rp_fuel_list := ["CH4"]; rp_fuels := [("CH4", methane)];
          rp_o2 := "O2"; rp_co2 := "CO2"; rp_h2o := "H2O"; rp_n2 := "N2" |} |}.


Definition ring_store : Store := fun _ => conn 1 0 0 1.

(** An engine, the component 0, whose cooling outlets, the connections 4
    and 5, lead to a heat consumer, the component 1, that returns the two
    flows to the cooling inlets, the connections 0 and 1.  The component 2
    supplies air and fuel and takes the flue gas. *)
Definition cooling_circuit : Topology :=
  {| node := fun c =>
       match c with
       | 0 => Engine [0; 1; 2; 3] [4; 5; 6]
       | 1 => Other [4; 5] [0; 1]
       | _ => Other [6] [2; 3]
       end;
     source := fun c =>
       match c with
       | 0 | 1 => 1
       | 4 | 5 | 6 => 0
       | _ => 2
       end;
     target := fun c =>
       match c with
       | 0 | 1 | 2 | 3 => 0
       | 4 | 5 => 1
       | _ => 2
       end |}.


(** ** Predicates on computations over the Jacobian *)

(** [frame n c Q]: whatever the Jacobian and however [c] ends, the rows
    below [n] are what they were, and a value [c] returns satisfies [Q]. *)
Definition frame {A} (n : nat) (c : M Jac A) (Q : A -> Prop) : Prop :=
  forall J, take n (c J).1 = take n J /\ forall a, (c J).2 = Ok a -> Q a.

(** [rect a b c J]: [J] has the shape [(a, b, c)]. *)
Definition rect (a b c : nat) (J : Jac) : Prop :=
  shape3 J = replicate a (replicate b c).

(** [safe a b c m Q]: on a Jacobian of the shape [(a, b, c)] the
    computation [m] returns a value that satisfies [Q] and leaves a
    Jacobian of that shape. *)
Definition safe {A} (a b c : nat) (m : M Jac A) (Q : A -> Prop) : Prop :=
  forall J, rect a b c J ->
    exists x J', m J = (J', Ok x) /\ rect a b c J' /\ Q x.

(** How [bus_func] and [bus_deriv] end on a name that is not valid: the
    error is logged and [ValueError] raised with the same message. *)
Definition invalid_bus {A} (b : BusRow)
  : list (LogLevel * string) * result A :=
  ([(ERROR, invalid_bus_parameter b)],
   Raise (ValueError (invalid_bus_parameter b))).

(** The exceptions an assignment to an array raises. *)
Definition array_error (e : exn) : Prop :=
  e = IndexError \/ e = ValueError "could not broadcast input array".

(** [raises_only c]: the only exceptions [c] raises are those. *)
Definition raises_only {S A} (c : M S A) : Prop :=
  forall s s' e, c s = (s', Raise e) -> array_error e.

(** Nothing has changed at the port [i]: the increment filter holds
    [True] for its mass flow and for all its fractions. *)
Definition unchanged (increment_filter : list (list bool)) (i : nat) : bool :=
  match increment_filter !! i with
  | Some row =>
      match row !! 0 with
      | Some b => b && forallb id (drop 3 row)
      | None => false
      end
  | None => false
  end.

(** ** Entries of the Jacobian *)

(** [J[k, i, j]], for indices in range. *)
Definition cell (J : Jac) (k i j : nat) : option float :=
  row ← J !! k; col ← row !! i; col !! j.

(** [entries a b c J g]: [J] has the shape [(a, b, c)] and the entries
    [g]. *)
Definition entries (a b c : nat) (J : Jac) (g : nat -> nat -> nat -> float)
  : Prop :=
  rect a b c J /\
  forall k i j, k < a -> i < b -> j < c -> cell J k i j = Some (g k i j).

(** [g] with [v] in the entry [(k, i, j)]. *)
Definition entry_set (g : nat -> nat -> nat -> float) (k i j : nat)
    (v : float) : nat -> nat -> nat -> float :=
  fun k' i' j' => if decide (k' = k /\ i' = i /\ j' = j) then v else g k' i' j'.

(** The derivatives of the residuals of [fluid_func] for a network of [F]
    fluids: the residual of the fluid [k] of the first loop by the
    fractions of that fluid at [in1] (port 0) and [out1] (port 4), and
    the residual [F + k] of the second loop by those at [in2] (port 1)
    and [out2] (port 5); the fraction of the fluid [k] is the variable
    [k + 3] of a port. *)
Definition fluid_deriv_entry (F k i j : nat) : float :=
  if decide (k < F)
  then if decide (i = 0 /\ j = k + 3) then 1%float
       else if decide (i = 4 /\ j = k + 3) then (-1)%float
       else 0%float
  else if decide (i = 1 /\ j = k - F + 3) then 1%float
       else if decide (i = 5 /\ j = k - F + 3) then (-1)%float
       else 0%float.

(** The derivatives of the residuals of [mass_flow_func] by the mass
    flows, the variable 0 of the ports [in1 .. in4] (0 to 3) and
    [out1 .. out3] (4 to 6). *)
Definition mass_flow_deriv_entry (k i j : nat) : float :=
  if decide (j = 0)
  then match k, i with
       | 0, 0 | 1, 1 | 2, 2 | 2, 3 => 1%float
       | 0, 4 | 1, 5 | 2, 6 => (-1)%float
       | _, _ => 0%float
       end
  else 0%float.

(** The derivatives of the two pressure equations of the combustion,
    [in3.p - out3.p] and [in3.p - in4.p], by the pressures, the variable 1
    of a port. *)
Definition pressure_deriv_entry (k i j : nat) : float :=
  if decide (j = 1)
  then match k, i with
       | 0, 2 | 1, 2 => 1%float
       | 0, 6 | 1, 3 => (-1)%float
       | _, _ => 0%float
       end
  else 0%float.

(** [fills a b c m g g']: on a Jacobian of the shape [(a, b, c)] with the
    entries [g] the computation [m] returns and leaves the entries [g']. *)
Definition fills (a b c : nat) (m : M Jac unit)
    (g g' : nat -> nat -> nat -> float) : Prop :=
  forall J, entries a b c J g ->
    exists J', m J = (J', Ok tt) /\ entries a b c J' g'.
(** * Properties *)

(** ** Loops and dictionaries *)

Lemma for_pure {A B} (g : B -> A -> B) (l : list A) (acc : B)
    (body : B -> A -> result B) :
  (forall a x, x ∈ l -> body a x = Ok (g a x)) ->
  for_ l acc body = Ok (fold_left g l acc).
Proof.
  revert acc. induction l as [|x l IH]; intros acc Hb; [done|].
  cbn. rewrite Hb by set_solver. cbn. apply IH.
  intros a y Hy. apply Hb. set_solver.
Qed.

Lemma getitem_contains {A} (d : list (string * A)) (k : string) :
  contains d k = true -> exists v, getitem d k = Ok v.
Proof.
  unfold contains, keys. induction d as [|[k' v] d IH]; cbn; [done|].
  destruct (String.eqb k k'); [eauto | exact IH].
Qed.

Lemma getitem_fraction (c : Connection) (f : string) :
  contains (fluid_val c) f = true ->
  getitem (fluid_val c) f = Ok (fraction c f).
Proof.
  intros [v Hv]%getitem_contains. unfold fraction. by rewrite Hv.
Qed.

Lemma getitem_lower_heating_value (s : CombustionEngine) (f : string) :
  contains (fuels s) f = true ->
  exists fu, getitem (fuels s) f = Ok fu /\ LHV fu = lower_heating_value s f.
Proof.
  intros [v Hv]%getitem_contains. unfold lower_heating_value.
  rewrite Hv. eauto.
Qed.

Lemma fuels_known_elim (s : CombustionEngine) (cs : list Connection)
    (f : string) (c : Connection) :
  fuels_known s cs = true -> f ∈ fuel_list s ->
  contains (fuels s) f = true /\ (c ∈ cs -> contains (fluid_val c) f = true).
Proof.
  unfold fuels_known. rewrite forallb_forall.
  intros Hk Hf%list_elem_of_In. specialize (Hk _ Hf).
  apply andb_true_iff in Hk as [H1 H2]. split; [done|].
  rewrite forallb_forall in H2. intros Hc%list_elem_of_In. auto.
Qed.

(** ** Thermal input *)

Lemma calc_ti_thermal_input (s : CombustionEngine)
    (i1 i2 i3 i4 o1 o2 o3 : Connection) :
  inl s = [i1; i2; i3; i4] -> outl s = [o1; o2; o3] ->
  fuels_known s [i3; i4; o3] = true ->
  calc_ti s = Ok (thermal_input s i3 i4 o3).
Proof.
  intros Hi Ho Hk. unfold calc_ti, thermal_input. rewrite Hi, Ho. cbn [drop].
  apply for_pure. intros t f Hf.
  destruct (fuels_known_elim s [i3; i4; o3] f i3 Hk Hf) as [Hfu H3].
  destruct (fuels_known_elim s [i3; i4; o3] f i4 Hk Hf) as [_ H4].
  destruct (fuels_known_elim s [i3; i4; o3] f o3 Hk Hf) as [_ H5].
  destruct (getitem_lower_heating_value s f Hfu) as (fu & Hg & <-).
  cbn. rewrite !getitem_fraction by (first [apply H3 | apply H4 | apply H5]; set_solver).
  cbn. rewrite Hg. reflexivity.
Qed.

(** ** Energy balance *)

(** C1.  Whatever the seven connections and the parameters [P] and [Qloss]
    hold, [energy_balance] returns the sum over the inlets [in3] and [in4]
    of [m * (h - h_ref)], minus [m * (h - h_ref)] of the outlet [out3],
    plus the thermal input, minus [m * (h_out - h_in)] of each cooling
    loop, plus [P] plus [Qloss]; every [h_ref] is the enthalpy of the
    composition of its port at 298.15 K and 1e5 Pa with the gas phase
    forced.  The terms are added in the order of the source, starting at
    zero. *)
Theorem energy_balance_residual (ext : External) (s : CombustionEngine)
    (in1 in2 in3 in4 out1 out2 out3 : Connection) :
  inl s = [in1; in2; in3; in4] -> outl s = [out1; out2; out3] ->
  fuels_known s [in3; in4; out3] = true ->
  energy_balance ext s =
    Ok (0 + m in3 * (h in3 - h_ref ext in3)
          + m in4 * (h in4 - h_ref ext in4)
          - m out3 * (h out3 - h_ref ext out3)
          + thermal_input s in3 in4 out3
          - m in1 * (h out1 - h in1)
          - m in2 * (h out2 - h in2)
          + (val (P s) + val (Qloss s)))%float.
Proof.
  intros Hi Ho Hk. unfold energy_balance.
  rewrite (calc_ti_thermal_input s _ _ _ _ _ _ _ Hi Ho Hk).
  rewrite Hi, Ho. reflexivity.
Qed.

Lemma energy_balance_residual_witness :
  energy_balance no_collaborators mass_flow_scenario =
    Ok (0 + 0.2 * (0 - 0) + 0.1 * (0 - 0) - 0.3 * (0 - 0)
          + thermal_input mass_flow_scenario
              (conn 0.2 0 0 0) (conn 0.1 0 1 0) (conn 0.3 0 0 0)
          - 5 * (0 - 0) - 3 * (0 - 0) + (-1e6 + -1e5))%float.
Proof.
  exact (energy_balance_residual no_collaborators mass_flow_scenario
           _ _ _ _ _ _ _ eq_refl eq_refl eq_refl).
Defined.

(** ** Characteristic couplings *)

(** The load ratio of the source against the reference: the same number
    where the division is defined, [ZeroDivisionError] where the design
    value is zero. *)
Lemma load_expr_defined (s : CombustionEngine) :
  nonzero_design s = true -> load_expr s = Ok (load_ratio s).
Proof.
  unfold nonzero_design, load_expr, load_ratio, pydiv.
  destruct (is_nan (design (P s))); [done|].
  by destruct (design (P s) =? 0)%float.
Qed.

Lemma load_expr_zero (s : CombustionEngine) :
  nonzero_design s = false -> load_expr s = Raise ZeroDivisionError.
Proof.
  unfold nonzero_design, load_expr, pydiv.
  destruct (is_nan (design (P s))); [done|].
  by destruct (design (P s) =? 0)%float.
Qed.

(** C2, as stated, fails in two ways.  With a design value of zero
    recorded for [P], the load ratio is not computed: the division raises
    [ZeroDivisionError], and so do the four couplings.  And the second
    product of the couplings of the loops is taken from left to right,
    [(f_TI(load) * m_i) * (h_out_i - h_in_i)], which in binary64 is not
    [f_TI(load) * (m_i * (h_out_i - h_in_i))]: with no fuel flow,
    [f_TI = 0.1], [m_1 = 0.2] and a rise of the enthalpy of 0.3 the two
    differ. *)
Lemma coupling_counterexamples :
  (design (P zero_design_scenario) = 0%float /\
   tiP_char_func zero_design_scenario = Raise ZeroDivisionError /\
   Q1_char_func zero_design_scenario = Raise ZeroDivisionError /\
   Q2_char_func zero_design_scenario = Raise ZeroDivisionError /\
   Qloss_char_func zero_design_scenario = Raise ZeroDivisionError) /\
  (let s := rounding_scenario in
   let in1 := conn 0.2 0 0 1 in
   let out1 := conn 0.2 0.3 0 1 in
   let in2 := conn 3 0 0 1 in
   let in3 := conn 0.2 0 0 0 in
   let in4 := conn 0.1 0 0 1 in
   let out3 := conn 0.3 0 0 0 in
   exists v,
     inl s = [in1; in2; in3; in4] /\ outl s = [out1; in2; out3] /\
     Q1_char_func s = Ok v /\
     (v =? thermal_input s in3 in4 out3
             * evaluate (func (Q1_char s)) (load_ratio s)
           - evaluate (func (tiP_char s)) (load_ratio s)
             * (m in1 * (h out1 - h in1)))%float = false).
Proof.
  split.
  - repeat split.
  - cbv zeta. eexists. do 3 (split; [reflexivity|]). vm_compute. reflexivity.
Qed.

(** C2, amended.  Where no design value of [P] is recorded, or the
    recorded one is not zero, with the load ratio [P / P_design], or 1
    without a design value, the four couplings return
    [ti + f_TI(load) * P],
    [ti * f_Qi(load) - f_TI(load) * m_i * (h_out_i - h_in_i)] for the
    loops 1 and 2, and [ti * f_Qloss(load) + f_TI(load) * Qloss], where
    [ti] is the thermal input; products are taken from left to right, as
    the source writes them.  With a design value of zero each of the four
    raises [ZeroDivisionError]. *)
Theorem characteristic_couplings (s : CombustionEngine)
    (in1 in2 in3 in4 out1 out2 out3 : Connection) :
  inl s = [in1; in2; in3; in4] -> outl s = [out1; out2; out3] ->
  fuels_known s [in3; in4; out3] = true ->
  let t := thermal_input s in3 in4 out3 in
  let f_TI := evaluate (func (tiP_char s)) (load_ratio s) in
  let f_Q1 := evaluate (func (Q1_char s)) (load_ratio s) in
  let f_Q2 := evaluate (func (Q2_char s)) (load_ratio s) in
  let f_Qloss := evaluate (func (Qloss_char s)) (load_ratio s) in
  if nonzero_design s
  then
    tiP_char_func s = Ok (t + f_TI * val (P s))%float /\
    Q1_char_func s = Ok (t * f_Q1 - f_TI * m in1 * (h out1 - h in1))%float /\
    Q2_char_func s = Ok (t * f_Q2 - f_TI * m in2 * (h out2 - h in2))%float /\
    Qloss_char_func s = Ok (t * f_Qloss + f_TI * val (Qloss s))%float
  else
    tiP_char_func s = Raise ZeroDivisionError /\
    Q1_char_func s = Raise ZeroDivisionError /\
    Q2_char_func s = Raise ZeroDivisionError /\
    Qloss_char_func s = Raise ZeroDivisionError.
Proof.
  intros Hi Ho Hk. cbv zeta.
  unfold tiP_char_func, Q1_char_func, Q2_char_func, Qloss_char_func.
  rewrite (calc_ti_thermal_input s _ _ _ _ _ _ _ Hi Ho Hk).
  rewrite Hi, Ho.
  destruct (nonzero_design s) eqn:Hd.
  - rewrite (load_expr_defined s Hd). repeat split; reflexivity.
  - rewrite (load_expr_zero s Hd). repeat split; reflexivity.
Qed.

Lemma characteristic_couplings_witness :
  tiP_char_func mass_flow_scenario = Ok (5e6 + 1 * -1e6)%float /\
  Q1_char_func mass_flow_scenario = Ok (5e6 * 1 - 1 * 5 * (0 - 0))%float /\
  Q2_char_func mass_flow_scenario = Ok (5e6 * 1 - 1 * 3 * (0 - 0))%float /\
  Qloss_char_func mass_flow_scenario = Ok (5e6 * 1 + 1 * -1e5)%float.
Proof.
  exact (characteristic_couplings mass_flow_scenario
           _ _ _ _ _ _ _ eq_refl eq_refl eq_refl).
Defined.

(** ** Mass flow balance *)

Lemma mass_flow_func_residual (s : CombustionEngine)
    (in1 in2 in3 in4 out1 out2 out3 : Connection) :
  inl s = [in1; in2; in3; in4] -> outl s = [out1; out2; out3] ->
  mass_flow_func s =
    Ok [m in1 - m out1; m in2 - m out2; m in3 + m in4 - m out3]%float.
Proof. intros Hi Ho. unfold mass_flow_func. rewrite Hi, Ho. reflexivity. Qed.

(** C9, as stated, fails: with the mass flows 5, 3, 0.2, 0.1 at the inlets
    and 5, 3, 0.3 at the outlets the third residual is not zero. *)
Lemma mass_flow_scenario_not_zero :
  exists r : float,
    mass_flow_func mass_flow_scenario = Ok [0%float; 0%float; r] /\
    (r =? 0)%float = false.
Proof. exists 0x1p-54%float. split; reflexivity. Qed.

(** C9, amended.  In the scenario the residuals [in1.m - out1.m],
    [in2.m - out2.m] and [in3.m + in4.m - out3.m] are [0], [0] and
    [2^-54], about 5.55e-17: the first two are exactly zero, the third is
    the rounding error of [0.2 + 0.1 - 0.3] in binary64. *)
Theorem mass_flow_scenario_residual :
  mass_flow_func mass_flow_scenario =
    Ok [0%float; 0%float; 0x1p-54%float] /\
  (0.2 + 0.1 - 0.3 = 0x1p-54)%float /\
  (abs 0x1p-54 <? 1e-16)%float = true.
Proof. repeat split; reflexivity. Qed.

(** ** Residual vector *)

Section ApplyRows.

Variable upd : Row * result float -> float -> float.

Lemma apply_rows_length (rs : list (Row * result float)) (r : list float) :
  length (apply_rows upd rs r) = length r.
Proof.
  revert r. induction rs as [|row rs IH]; intros [|old r]; cbn; auto.
Qed.

Lemma apply_rows_lookup_ge (rs : list (Row * result float)) (r : list float)
    (k : nat) :
  length rs <= k -> apply_rows upd rs r !! k = r !! k.
Proof.
  revert r k. induction rs as [|row rs IH]; intros [|old r] k Hk; cbn; auto.
  cbn in Hk. destruct k as [|k]; [lia|]. cbn. apply IH. lia.
Qed.

Lemma apply_rows_lookup (rs : list (Row * result float)) (r : list float)
    (k : nat) (row : Row * result float) (old : float) :
  rs !! k = Some row -> r !! k = Some old ->
  apply_rows upd rs r !! k = Some (upd row old).
Proof.
  revert r k. induction rs as [|row' rs IH]; intros [|old' r] k; try done.
  destruct k as [|k]; cbn.
  - by intros [= ->] [= ->].
  - apply IH.
Qed.

Lemma apply_rows_snoc (rs : list (Row * result float)) (r : list float)
    (row : Row * result float) (old : float) :
  r !! length rs = Some old ->
  <[length rs := upd row old]> (apply_rows upd rs r)
  = apply_rows upd (rs ++ [row]) r.
Proof.
  revert r. induction rs as [|row' rs IH]; intros [|old' r]; try done; cbn.
  - by intros [= ->].
  - intros Hr. f_equal. by apply IH.
Qed.

Lemma apply_rows_values (row : Row) (vals r : list float) :
  (forall v old, upd (row, Ok v) old = v) ->
  length vals <= length r ->
  apply_rows upd ((fun v => (row, Ok v)) <$> vals) r
  = vals ++ drop (length vals) r.
Proof.
  intros Hu. revert r. induction vals as [|v vals IH]; intros [|old r]; cbn;
    try done; try lia.
  intros Hl. rewrite Hu. f_equal. apply IH. lia.
Qed.

Lemma apply_rows_block (rs : list (Row * result float)) (row : Row)
    (vals r : list float) :
  (forall v old, upd (row, Ok v) old = v) ->
  length rs + length vals <= length r ->
  take (length rs) (apply_rows upd rs r) ++ vals
    ++ drop (length rs + length vals) (apply_rows upd rs r)
  = apply_rows upd (rs ++ ((fun v => (row, Ok v)) <$> vals)) r.
Proof.
  intros Hu. revert r. induction rs as [|row' rs IH]; intros r Hl.
  - cbn. rewrite apply_rows_values by done.
    destruct r; done.
  - destruct r as [|old r]; cbn in *; [lia|]. f_equal. apply IH. lia.
Qed.

End ApplyRows.

Section Rows.

Variable ext : External.
Variable s : CombustionEngine.
Variable r : list float.

Local Abbreviation st rs := (apply_rows (update_row ext s) rs r).

Lemma rset_run (k : nat) (v : float) (l : list float) :
  k < length l -> rset k v l = (<[k := v]> l, Ok tt).
Proof. intros Hk. unfold rset, update, setidx. by rewrite decide_True. Qed.

Lemma recompute_run (k : nat) (l : list float) (old : float) :
  l !! k = Some old ->
  recompute ext s k l = (l, Ok (recompute_condition ext s old)).
Proof. intros Hk. unfold recompute, read, getidx. by rewrite Hk. Qed.

Lemma next_row (done : list (Row * result float)) (n : nat) :
  length done + S n <= length r -> exists old, r !! length done = Some old.
Proof. intros Hl. apply lookup_lt_is_Some_2. lia. Qed.

Lemma appends_ret : appends ext s r (fun k => mret k) [].
Proof. intros done _. by rewrite app_nil_r, Nat.add_0_r. Qed.

Lemma appends_bind (c1 c2 : nat -> M (list float) nat)
    (new1 new2 : list (Row * result float)) :
  appends ext s r c1 new1 -> appends ext s r c2 new2 ->
  appends ext s r (fun k => k' ← c1 k; c2 k') (new1 ++ new2).
Proof.
  intros H1 H2 done Hl. rewrite length_app in Hl.
  unfold mbind, M_bind. rewrite H1 by lia.
  specialize (H2 (done ++ new1)). rewrite length_app in H2.
  rewrite H2 by lia. by rewrite app_assoc, length_app, Nat.add_assoc.
Qed.

Lemma finishes_ret : finishes ext s r (fun _ => mret tt) [].
Proof. intros done _. by rewrite app_nil_r. Qed.

Lemma finishes_bind (c1 : nat -> M (list float) nat)
    (c2 : nat -> M (list float) unit)
    (new1 new2 : list (Row * result float)) :
  appends ext s r c1 new1 -> finishes ext s r c2 new2 ->
  finishes ext s r (fun k => k' ← c1 k; c2 k') (new1 ++ new2).
Proof.
  intros H1 H2 done Hl. rewrite length_app in Hl.
  unfold mbind, M_bind. rewrite H1 by lia.
  specialize (H2 (done ++ new1)). rewrite length_app in H2.
  rewrite H2 by lia. by rewrite app_assoc.
Qed.

Lemma finishes_lift {A} (res : result A) (x : A)
    (f : A -> nat -> M (list float) unit)
    (new : list (Row * result float)) :
  res = Ok x -> finishes ext s r (f x) new ->
  finishes ext s r (fun k => a ← lift res; f a k) new.
Proof. intros -> Hf done Hl. by apply Hf. Qed.

Lemma appends_if (b : bool) (c : nat -> M (list float) nat)
    (new : list (Row * result float)) :
  appends ext s r c new ->
  appends ext s r (fun k => if b then c k else mret k)
    (if b then new else []).
Proof. destruct b; [done|]. intros _. apply appends_ret. Qed.

Lemma appends_assign (row : Row) (f : result float) :
  selective row = false -> (exists v, f = Ok v) ->
  appends ext s r (fun k => assign k f) [(row, f)].
Proof.
  intros Hs [v ->] done Hl. cbn in Hl.
  destruct (next_row done 0 Hl) as [old Hold].
  unfold assign, mbind, M_bind, lift.
  rewrite rset_run by (rewrite apply_rows_length; lia). cbn.
  rewrite <- (apply_rows_snoc _ _ _ _ old Hold).
  unfold update_row. cbn. by rewrite Hs.
Qed.

Lemma appends_assign_selective (row : Row) (f : result float) :
  selective row = true -> (exists v, f = Ok v) ->
  appends ext s r (fun k => assign_selective ext s k f) [(row, f)].
Proof.
  intros Hs [v ->] done Hl. cbn in Hl.
  destruct (next_row done 0 Hl) as [old Hold].
  assert (st done !! length done = Some old) as Hst
    by (by rewrite apply_rows_lookup_ge).
  unfold assign_selective, mbind, M_bind.
  rewrite (recompute_run _ _ old Hst).
  rewrite <- (apply_rows_snoc _ _ _ _ old Hold).
  unfold update_row. cbn. rewrite Hs. cbn.
  destruct (recompute_condition ext s old); cbn.
  - unfold mbind, M_bind, lift.
    by rewrite rset_run by (rewrite apply_rows_length; lia).
  - by rewrite list_insert_id.
Qed.

Lemma appends_assign_slice (row : Row) (f : result (list float)) (n : nat) :
  selective row = false -> (exists vals, f = Ok vals /\ length vals = n) ->
  appends ext s r (fun k => assign_slice k (k + n) n f) (block row f).
Proof.
  intros Hs (vals & -> & <-) done Hl. cbn in Hl. rewrite length_fmap in Hl.
  unfold assign_slice, mbind, M_bind, lift, rset_slice, update, set_slice.
  rewrite apply_rows_length.
  replace (length done `min` length r) with (length done) by lia.
  replace ((length done + length vals) `min` length r - length done)
    with (length vals) by lia.
  unfold broadcast. rewrite decide_True by done. cbn.
  rewrite (apply_rows_block _ _ row); [by rewrite length_fmap| |done].
  intros v old. unfold update_row. cbn. by rewrite Hs.
Qed.

Lemma appends_reaction_balance (l : list string) :
  appends ext s r
    (fun k => forM l k (fun k fluid =>
       assign_selective ext s k (Ok (reaction_balance ext s fluid))))
    ((fun fluid => (ReactionBalance fluid, Ok (reaction_balance ext s fluid)))
       <$> l).
Proof.
  induction l as [|fluid l IH]; [apply appends_ret|].
  cbn [forM fmap list_fmap].
  apply (appends_bind _ _ [_]); [|exact IH].
  apply appends_assign_selective; [done|eauto].
Qed.

End Rows.

Lemma contains_keys {A} (d : list (string * A)) (k : string) :
  k ∈ keys d -> contains d k = true.
Proof.
  intros Hk. unfold contains. apply existsb_exists. exists k.
  split; [by apply list_elem_of_In|]. apply String.eqb_refl.
Qed.

Lemma fold_left_snoc_length {A} (h : A -> float) (l : list A)
    (acc : list float) :
  length (fold_left (fun acc x => acc ++ [h x]) l acc) = length acc + length l.
Proof.
  revert acc. induction l as [|x l IH]; intros acc; cbn; [lia|].
  rewrite IH, length_app. cbn. lia.
Qed.

Lemma well_formed_ports (s : CombustionEngine) :
  well_formed s ->
  exists i1 i2 i3 i4 o1 o2 o3,
    inl s = [i1; i2; i3; i4] /\ outl s = [o1; o2; o3] /\
    (forall c, c ∈ [i1; i2; i3; i4; o1; o2; o3] ->
       keys (fluid_val c) = nw_fluids s) /\
    fuels_known s [i3; i4; o3] = true.
Proof.
  intros (Hi & Ho & HF & Hk & Hf & HE).
  destruct (inl s) as [|i1 [|i2 [|i3 [|i4 [|]]]]] eqn:Ei; try done.
  destruct (outl s) as [|o1 [|o2 [|o3 [|]]]] eqn:Eo; try done.
  exists i1, i2, i3, i4, o1, o2, o3. repeat split; [done|].
  unfold fuels_known. apply forallb_forall. intros f Hin%list_elem_of_In.
  destruct (Hf f Hin) as [Hnw Hc]. rewrite Hc. cbn.
  rewrite !andb_true_iff. repeat split; try done;
    apply contains_keys; rewrite Hk; [done|set_solver..].
Qed.

Lemma fluid_func_defined (s : CombustionEngine)
    (i1 i2 i3 i4 o1 o2 o3 : Connection) :
  inl s = [i1; i2; i3; i4] -> outl s = [o1; o2; o3] ->
  keys (fluid_val i1) = keys (fluid_val o1) ->
  keys (fluid_val i2) = keys (fluid_val o2) ->
  exists vals, fluid_func s = Ok vals /\
    length vals = length (fluid_val i1) + length (fluid_val i2).
Proof.
  intros Hi Ho H1 H2. unfold fluid_func. rewrite Hi, Ho.
  cbn [seq for_ getidx lookup list_lookup mbind result_bind].
  rewrite (for_pure (fun residual y =>
             residual ++ [(fun y => (y.2 - fraction o1 y.1)%float) y])).
  2:{ intros a [fluid x] Hx. cbn. rewrite getitem_fraction; [done|].
      apply contains_keys. rewrite <- H1. unfold keys.
      apply list_elem_of_fmap. by exists (fluid, x). }
  cbn [mbind result_bind].
  rewrite (for_pure (fun residual y =>
             residual ++ [(fun y => (y.2 - fraction o2 y.1)%float) y])).
  2:{ intros a [fluid x] Hx. cbn. rewrite getitem_fraction; [done|].
      apply contains_keys. rewrite <- H2. unfold keys.
      apply list_elem_of_fmap. by exists (fluid, x). }
  cbn [mbind result_bind mret result_ret]. eexists. split; [done|].
  rewrite !fold_left_snoc_length. cbn. lia.
Qed.

Lemma run_bind {S A B} (c : M S A) (f : A -> M S B) (x : S) :
  (c ≫= f) x
  = match c x with (x', Ok a) => f a x' | (x', Raise e) => (x', Raise e) end.
Proof. reflexivity. Qed.

Lemma finishes_last (ext : External) (s : CombustionEngine) (r : list float)
    (c : nat -> M (list float) nat) (new : list (Row * result float)) :
  appends ext s r c new ->
  finishes ext s r (fun k => _ ← c k; mret tt) new.
Proof.
  intros Hc. rewrite <- (app_nil_r new).
  apply (finishes_bind ext s r c (fun _ => mret tt)); [done|].
  apply finishes_ret.
Qed.

Lemma length_optional (c : dc_cp) (row : Row) (f : result float) :
  length (optional c row f) = if is_set c then 1 else 0.
Proof. unfold optional. by destruct (is_set c). Qed.

Lemma Forall_optional (c : dc_cp) (row : Row) (f : result float) :
  (exists v, f = Ok v) ->
  Forall (fun row => exists v, row.2 = Ok v) (optional c row f).
Proof. unfold optional. destruct (is_set c); by repeat constructor. Qed.

(** One step through [equations]: the head of the computation decides the
    lemma. *)
Ltac rows_step :=
  lazymatch goal with
  | |- finishes _ _ _ ?c _ =>
      let body := eval cbv beta in (c 0) in
      lazymatch body with
      | @mbind _ _ _ _ (fun _ => mret tt) _ => apply finishes_last
      | @mbind _ _ _ _ _ (lift _) =>
          eapply finishes_lift; [first [eassumption|reflexivity]|cbv beta]
      | @mbind _ _ _ _ _ _ => eapply finishes_bind
      end
  | |- appends _ _ _ ?c _ =>
      let body := eval cbv beta in (c 0) in
      lazymatch body with
      | (if _ then _ else _) => apply appends_if
      | forM _ _ _ => apply appends_reaction_balance
      | assign_slice _ _ _ _ => eapply (appends_assign_slice _ _ _ MassFlowBalance)
      | assign _ _ => eapply appends_assign
      | assign_selective _ _ _ _ => eapply appends_assign_selective
      end
  end.

Lemma equations_run (ext : External) (s : CombustionEngine) (r : list float) :
  well_formed s -> nonzero_design s = true -> length r = num_eq s ->
  equations ext s r = (apply_rows (update_row ext s) (rows ext s) r, Ok tt) /\
  length (rows ext s) = num_eq s /\
  Forall (fun row => exists v, row.2 = Ok v) (rows ext s).
Proof.
  intros Hwf Hd Hr.
  pose proof (load_expr_defined s Hd) as Hload.
  destruct (well_formed_ports s Hwf)
    as (i1 & i2 & i3 & i4 & o1 & o2 & o3 & Hi & Ho & Hk & Hfk).
  destruct Hwf as (_ & _ & HF & _ & _ & HE).
  assert (forall c, c ∈ [i1; i2; i3; i4; o1; o2; o3] ->
            length (fluid_val c) = num_nw_fluids s) as Hlen.
  { intros c Hc. rewrite HF, <- (Hk c Hc). unfold keys.
    by rewrite length_fmap. }
  destruct (fluid_func_defined s _ _ _ _ _ _ _ Hi Ho) as (vals & Hfl & Hlv).
  { rewrite !Hk; [done|set_solver..]. }
  { rewrite !Hk; [done|set_solver..]. }
  rewrite !Hlen in Hlv by set_solver.
  replace (num_nw_fluids s + num_nw_fluids s) with (num_nw_fluids s * 2)
    in Hlv by lia.
  pose proof (mass_flow_func_residual s _ _ _ _ _ _ _ Hi Ho) as Hmf.
  pose proof (calc_ti_thermal_input s _ _ _ _ _ _ _ Hi Ho Hfk) as Hti.
  assert (exists v, combustion_pressure_out s = Ok v) as Hpo
    by (unfold combustion_pressure_out; rewrite Hi, Ho; cbn; eauto).
  assert (exists v, combustion_pressure_in s = Ok v) as Hpi
    by (unfold combustion_pressure_in; rewrite Hi; cbn; eauto).
  assert (exists v, energy_balance ext s = Ok v) as Hen
    by (unfold energy_balance; rewrite Hti, Hi, Ho; cbn; eauto).
  assert (exists v, tiP_char_func s = Ok v) as Hc0
    by (unfold tiP_char_func; rewrite Hload, Hti; cbn; eauto).
  assert (exists v, Q1_char_func s = Ok v) as Hc1
    by (unfold Q1_char_func; rewrite Hload, Hti, Hi, Ho; cbn; eauto).
  assert (exists v, Q2_char_func s = Ok v) as Hc2
    by (unfold Q2_char_func; rewrite Hload, Hti, Hi, Ho; cbn; eauto).
  assert (exists v, Qloss_char_func s = Ok v) as Hc3
    by (unfold Qloss_char_func; rewrite Hload, Hti; cbn; eauto).
  assert (exists v, Q1_func s = Ok v) as Hq1
    by (unfold Q1_func; rewrite Hi, Ho; cbn; eauto).
  assert (exists v, Q2_func s = Ok v) as Hq2
    by (unfold Q2_func; rewrite Hi, Ho; cbn; eauto).
  assert (exists v, pr1_func s = Ok v) as Hp1
    by (unfold pr1_func; rewrite Hi, Ho; cbn; eauto).
  assert (exists v, pr2_func s = Ok v) as Hp2
    by (unfold pr2_func; rewrite Hi, Ho; cbn; eauto).
  assert (getidx (inl s) 0 = Ok i1) as Hg0 by (by rewrite Hi).
  assert (length (rows ext s) = num_eq s) as Hrows.
  { unfold rows, rows_after_fluid. rewrite Hfl, Hmf, Hg0.
    cbn [block]. rewrite !length_app, !length_fmap, !length_optional.
    unfold keys. rewrite length_fmap, (Hlen i1) by set_solver.
    rewrite HE. unfold optional_parameters. cbn. lia. }
  split; [|split; [done|]].
  - unfold equations. cbv zeta.
    match goal with
    | |- @mbind _ _ _ _ ?c _ _ = _ => set (rest := c)
    end.
    assert (finishes ext s r rest (rows_after_fluid ext s)) as Hfin.
    { subst rest. unfold rows_after_fluid, optional. rewrite Hg0.
      cbv beta iota.
      repeat rows_step. all: try reflexivity. all: eauto. }
   
    clearbody rest.
    pose proof (appends_assign_slice ext s r FluidBalance (fluid_func s)
                  (num_nw_fluids s * 2) eq_refl
                  (ex_intro _ vals (conj Hfl Hlv)) []) as H1.
    cbn [length Nat.add app apply_rows] in H1.
    rewrite run_bind, H1.
    2:{ rewrite Hr, <- Hrows. unfold rows. rewrite length_app. lia. }
    apply (Hfin (block FluidBalance (fluid_func s))).
    rewrite Hr. rewrite <- Hrows. unfold rows. rewrite length_app. lia.
  - unfold rows, rows_after_fluid. rewrite Hfl, Hmf, Hg0. cbn [block].
    repeat lazymatch goal with
      | |- Forall _ (_ ++ _) => apply Forall_app_2
      | |- Forall _ (optional _ _ _) => apply Forall_optional
      | |- Forall _ (_ <$> _) => apply Forall_fmap, Forall_true; intros ?
      | |- Forall _ [_] => apply Forall_singleton
      end.
    all: cbn; eauto.
Qed.


(** C5, as stated, fails for the heat output target: in an engine with
    [Q1] specified, at an iteration that is not a multiple of four and
    without the flag, [equations] called on a residual vector of zeros
    overwrites the row of the target with the residual of [Q1_func], which
    is not zero, although the condition does not hold for the stored zero. *)
Lemma heat_target_recomputed :
  exists r' v,
    equations no_collaborators heat_target_scenario (replicate 17 0%float)
      = (r', Ok tt) /\
    rows no_collaborators heat_target_scenario !! 16 = Some (Q1Target, Ok v) /\
    recompute_condition no_collaborators heat_target_scenario 0 = false /\
    r' !! 16 = Some v /\ (v =? 0)%float = false.
Proof. do 2 eexists. vm_compute. repeat split. Qed.

(** C5, amended.  On the state [comp_init] leaves, with a load ratio that
    is defined (no design value of [P] recorded, or one that is not
    zero), and a residual vector of [num_eq] entries, [equations]
    returns, and the vector it leaves has,
    row by row, what [rows] lists: where the row is [selective] (a
    reaction balance, the energy balance, one of the four characteristic
    couplings, a zeta target) and [recompute_condition] does not hold for
    the stored value, the stored value; in every other case (the
    structural rows, and the targets of lambda, thermal input, heat
    outputs and pressure ratios, whatever the condition) the residual
    computed anew. *)
Theorem equations_rows (ext : External) (s : CombustionEngine)
    (r : list float) :
  well_formed s -> nonzero_design s = true -> length r = num_eq s ->
  exists r',
    equations ext s r = (r', Ok tt) /\ length r' = length r /\
    length (rows ext s) = length r /\
    forall k kind f old,
      rows ext s !! k = Some (kind, f) -> r !! k = Some old ->
      exists v, f = Ok v /\
        r' !! k = Some (if selective kind
                           && negb (recompute_condition ext s old)
                        then old else v).
Proof.
  intros Hwf Hd Hr.
  destruct (equations_run ext s r Hwf Hd Hr) as (Hrun & Hlen & Hok).
  eexists. split; [exact Hrun|].
  split; [apply apply_rows_length|]. split; [congruence|].
  intros k kind f old Hk Hold.
  rewrite Forall_lookup in Hok. destruct (Hok _ _ Hk) as [v Hv].
  cbn in Hv. subst f. exists v. split; [done|].
  by rewrite (apply_rows_lookup _ _ _ _ _ old Hk Hold).
Qed.

Lemma equations_rows_witness :
  well_formed mass_flow_scenario /\
  exists r',
    equations no_collaborators mass_flow_scenario (replicate 16 0%float)
      = (r', Ok tt) /\ length r' = 16.
Proof.
  assert (well_formed mass_flow_scenario) as Hwf.
  { split; [reflexivity|]. split; [reflexivity|]. split; [reflexivity|].
    split; [|split; [|reflexivity]].
    - intros c Hc. cbn in Hc.
      repeat (apply elem_of_cons in Hc as [->|Hc]; [reflexivity|]).
      by apply elem_of_nil in Hc.
    - intros f Hf. apply list_elem_of_singleton in Hf as ->.
      split; [|reflexivity]. apply elem_of_cons. by left. }
  split; [exact Hwf|].
  destruct (equations_rows no_collaborators mass_flow_scenario
              (replicate 16 0%float) Hwf eq_refl eq_refl)
    as (r' & Hrun & Hlen & _).
  exists r'. split; [exact Hrun|exact Hlen].
Defined.

(** ** Rows of the Jacobian a computation leaves alone *)

Lemma frame_ret {A} (n : nat) (a : A) (Q : A -> Prop) :
  Q a -> frame n (mret a) Q.
Proof. intros Ha J. split; [done|]. cbn. by intros ? [= <-]. Qed.

Lemma frame_lift {A} (n : nat) (r : result A) :
  frame n (lift r) (fun _ => True).
Proof. intros J. by split. Qed.

Lemma frame_bind {A B} (n : nat) (c : M Jac A) (f : A -> M Jac B)
    (Q : A -> Prop) (R : B -> Prop) :
  frame n c Q -> (forall a, Q a -> frame n (f a) R) ->
  frame n (c ≫= f) R.
Proof.
  intros Hc Hf J. unfold mbind, M_bind.
  destruct (Hc J) as [Ht HQ]. destruct (c J) as [J1 [a|e]]; cbn in *.
  - destruct (Hf a (HQ a eq_refl) J1) as [Ht' HR]. split; [congruence|done].
  - split; [done|]. intros ? [=].
Qed.

Lemma frame_weaken {A} (n : nat) (c : M Jac A) (Q R : A -> Prop) :
  frame n c Q -> (forall a, Q a -> R a) -> frame n c R.
Proof. intros Hc HQR J. destruct (Hc J). split; auto. Qed.

Lemma frame_when (n : nat) (b : bool) (c : M Jac unit) :
  frame n c (fun _ => True) -> frame n (when_ b c) (fun _ => True).
Proof. destruct b; [done|]. intros _. by apply frame_ret. Qed.

Lemma frame_forM {A B} (n : nat) (l : list A) (acc : B)
    (body : B -> A -> M Jac B) (I : B -> Prop) :
  I acc -> (forall a x, I a -> frame n (body a x) I) ->
  frame n (forM l acc body) I.
Proof.
  intros Hacc Hbody. revert acc Hacc.
  induction l as [|x l IH]; intros acc Hacc; cbn.
  - by apply frame_ret.
  - eapply frame_bind; [by apply Hbody | exact IH].
Qed.

Lemma setidx_take {A} (n k : nat) (l l' : list A) (x : A) :
  n <= k -> setidx l k x = Ok l' -> take n l' = take n l.
Proof.
  unfold setidx. intros Hn. case_decide; [|done].
  intros [= <-]. by apply take_insert_ge.
Qed.

Lemma set3_take (n k i j : nat) (v : float) (J J' : Jac) :
  n <= k -> set3 J k i j v = Ok J' -> take n J' = take n J.
Proof.
  intros Hn. unfold set3.
  destruct (getidx J k) as [row|]; [cbn|done].
  destruct (getidx row i) as [col|]; [cbn|done].
  destruct (setidx col j v) as [col'|]; [cbn|done].
  destruct (setidx row i col') as [row'|]; [cbn|done].
  by apply setidx_take.
Qed.

Lemma set3_from_take (n k i j0 : nat) (vals : list float) (J J' : Jac) :
  n <= k -> set3_from J k i j0 vals = Ok J' -> take n J' = take n J.
Proof.
  intros Hn. unfold set3_from.
  destruct (getidx J k) as [row|]; [cbn|done].
  destruct (getidx row i) as [col|]; [cbn|done].
  destruct (set_slice col j0 (length col) vals) as [col'|]; [cbn|done].
  destruct (setidx row i col') as [row'|]; [cbn|done].
  by apply setidx_take.
Qed.

Lemma frame_update (n : nat) (g : Jac -> result Jac) :
  (forall J J', g J = Ok J' -> take n J' = take n J) ->
  frame n (update g) (fun _ => True).
Proof.
  intros Hg J. unfold update. specialize (Hg J).
  destruct (g J) as [J'|e]; cbn; split; auto.
Qed.

Lemma frame_jset (n k i j : nat) (v : float) :
  n <= k -> frame n (jset k i j v) (fun _ => True).
Proof. intros Hn. apply frame_update. intros J J'. by apply set3_take. Qed.

Lemma frame_jset_from (n k i j0 : nat) (vals : list float) :
  n <= k -> frame n (jset_from k i j0 vals) (fun _ => True).
Proof. intros Hn. apply frame_update. intros J J'. by apply set3_from_take. Qed.

(** One step of the proof that a computation is framed: the next bind
    returns a row index, which stays above [n], or anything else. *)
Ltac frame_step n :=
  lazymatch goal with
  | |- frame _ (mret _) (fun _ => True) => by apply frame_ret
  | |- frame _ (mret _) _ => apply frame_ret; lia
  | |- frame _ (lift _) _ => apply frame_lift
  | |- frame _ (flt _ _ _) _ => apply frame_lift
  | |- frame _ (flt_all _ _) _ => apply frame_lift
  | |- frame _ (when_ _ _) _ => apply frame_when
  | |- frame _ (jset _ _ _ _) _ => apply frame_jset; lia
  | |- frame _ (jset_from _ _ _ _) _ => apply frame_jset_from; lia
  | |- frame _ (forM _ tt _) _ =>
      apply frame_forM; [exact I | intros [] ? _]
  | |- frame _ (forM _ _ _) _ =>
      apply (frame_forM n _ _ _ (fun k => n <= k));
      [lia | intros ? ? ?]
  | |- frame _ (@mbind _ _ _ _ _ (lift _)) _ =>
      eapply (frame_bind n _ _ (fun _ => True)); [|intros ? _]
  | |- frame _ (@mbind _ _ nat _ _ _) _ =>
      eapply (frame_bind n _ _ (fun k => n <= k)); [|intros ? ?]
  | |- frame _ (@mbind _ _ _ _ _ _) _ =>
      eapply (frame_bind n _ _ (fun _ => True)); [|intros ? _]
  | |- frame _ (if ?b then _ else _) _ => destruct b
  | |- frame _ (let '(_, _) := ?x in _) _ => destruct x
  end.

Section Frames.

Variable ext : External.

Lemma frame_char_columns (n k : nat) (s : CombustionEngine)
    (increment_filter : list (list bool))
    (f : CombustionEngine -> result float) :
  n <= k -> frame n (char_columns ext s increment_filter f k) (fun _ => True).
Proof. intros Hn. unfold char_columns. repeat frame_step n. Qed.

Lemma frame_zeta_columns (n k i o : nat) (s : CombustionEngine)
    (increment_filter : list (list bool))
    (f : CombustionEngine -> result float) :
  n <= k ->
  frame n (zeta_columns ext s increment_filter f i o k) (fun _ => True).
Proof. intros Hn. unfold zeta_columns. repeat frame_step n. Qed.

Lemma frame_derivatives (s : CombustionEngine)
    (increment_filter : list (list bool)) :
  frame (num_nw_fluids s * 2 + 5) (derivatives ext s increment_filter)
    (fun _ => True).
Proof.
  unfold derivatives. cbv zeta.
  repeat lazymatch goal with
    | |- frame _ (char_columns _ _ _ _ _) _ => apply frame_char_columns; lia
    | |- frame _ (zeta_columns _ _ _ _ _ _ _) _ =>
        apply frame_zeta_columns; lia
    | |- _ => frame_step (num_nw_fluids s * 2 + 5)
    end.
Qed.

End Frames.

(** ** Writes within the shape of the Jacobian *)


Lemma rect_zeros3 (a b c : nat) : rect a b c (zeros3 a b c).
Proof.
  unfold rect, shape3, shape2, zeros3, zeros.
  rewrite !fmap_replicate. by rewrite length_replicate.
Qed.

Lemma rect_length (a b c : nat) (J : Jac) : rect a b c J -> length J = a.
Proof.
  unfold rect, shape3. intros H%(f_equal length).
  by rewrite length_fmap, length_replicate in H.
Qed.

Lemma rect_row (a b c k : nat) (J : Jac) :
  rect a b c J -> k < a ->
  exists row, J !! k = Some row /\ shape2 row = replicate b c.
Proof.
  intros HJ Hk. pose proof (rect_length _ _ _ _ HJ) as Hl.
  destruct (lookup_lt_is_Some_2 J k) as [row Hrow]; [lia|].
  exists row. split; [done|].
  unfold rect, shape3 in HJ. apply (f_equal (fun l => l !! k)) in HJ.
  rewrite list_lookup_fmap, Hrow, lookup_replicate_2 in HJ by done.
  cbn in HJ. congruence.
Qed.

Lemma shape2_col (b c i : nat) (row : list (list float)) :
  shape2 row = replicate b c -> i < b ->
  length row = b /\ exists col, row !! i = Some col /\ length col = c.
Proof.
  unfold shape2. intros Hrow Hi.
  assert (length row = b) as Hl.
  { apply (f_equal length) in Hrow.
    by rewrite length_fmap, length_replicate in Hrow. }
  split; [done|].
  destruct (lookup_lt_is_Some_2 row i) as [col Hcol]; [lia|].
  exists col. split; [done|].
  apply (f_equal (fun l => l !! i)) in Hrow.
  rewrite list_lookup_fmap, Hcol, lookup_replicate_2 in Hrow by done.
  cbn in Hrow. congruence.
Qed.

Lemma rect_insert (a b c k i : nat) (J : Jac) (row : list (list float))
    (col col' : list float) :
  rect a b c J -> J !! k = Some row -> row !! i = Some col ->
  length col' = length col ->
  rect a b c (<[k := <[i := col']> row]> J).
Proof.
  unfold rect, shape3, shape2. intros HJ Hrow Hcol Hlen.
  rewrite list_fmap_insert, list_fmap_insert, Hlen.
  rewrite (list_insert_id (length <$> row) i (length col)).
  - rewrite list_insert_id; [done|]. by rewrite list_lookup_fmap, Hrow.
  - by rewrite list_lookup_fmap, Hcol.
Qed.

Lemma safe_ret {A} (a b c : nat) (x : A) (Q : A -> Prop) :
  Q x -> safe a b c (mret x) Q.
Proof. intros HQ J HJ. by exists x, J. Qed.

Lemma safe_bind {A B} (a b c : nat) (m : M Jac A) (f : A -> M Jac B)
    (Q : A -> Prop) (R : B -> Prop) :
  safe a b c m Q -> (forall x, Q x -> safe a b c (f x) R) ->
  safe a b c (m ≫= f) R.
Proof.
  intros Hm Hf J HJ. destruct (Hm J HJ) as (x & J1 & E & HJ1 & HQ).
  destruct (Hf x HQ J1 HJ1) as (y & J2 & E2 & HJ2 & HR).
  exists y, J2. unfold mbind, M_bind. rewrite E. done.
Qed.

Lemma safe_forM {A B} (a b c : nat) (l : list A) (acc : B)
    (body : B -> A -> M Jac B) (I : B -> Prop) :
  I acc -> (forall y x, x ∈ l -> I y -> safe a b c (body y x) I) ->
  safe a b c (forM l acc body) I.
Proof.
  intros Hacc Hbody. revert acc Hacc.
  induction l as [|x l IH]; intros acc Hacc; cbn.
  - by apply safe_ret.
  - eapply safe_bind; [apply Hbody; [set_solver|done]|].
    intros y Hy. apply IH; [|done]. intros ? ? ?. apply Hbody. set_solver.
Qed.

Lemma safe_jset (a b c k i j : nat) (v : float) :
  k < a -> i < b -> j < c -> safe a b c (jset k i j v) (fun _ => True).
Proof.
  intros Hk Hi Hj J HJ.
  destruct (rect_row _ _ _ k _ HJ Hk) as (row & Hrow & Hsh).
  destruct (shape2_col _ _ i _ Hsh Hi) as (Hlr & col & Hcol & Hlc).
  pose proof (rect_length _ _ _ _ HJ) as HlJ.
  exists tt, (<[k := <[i := <[j := v]> col]> row]> J).
  split; [|split; [|done]].
  - unfold jset, update, set3, getidx, setidx. rewrite Hrow. cbn.
    rewrite Hcol. cbn. rewrite decide_True by lia. cbn.
    rewrite decide_True by lia. cbn. by rewrite decide_True by lia.
  - eapply rect_insert; [done..|]. by rewrite length_insert.
Qed.

Lemma run_on_safe (a b c : nat) (J0 : Jac) (m : M Jac unit) :
  rect a b c J0 -> safe a b c m (fun _ => True) ->
  exists J, run_on J0 m = Ok J /\ rect a b c J.
Proof.
  intros HJ Hm. destruct (Hm J0 HJ) as ([] & J & E & HJ' & _).
  exists J. unfold run_on. by rewrite E.
Qed.

Ltac safe_step :=
  lazymatch goal with
  | |- safe _ _ _ (mret _) _ => by apply safe_ret
  | |- safe _ _ _ (jset _ _ _ _) _ => apply safe_jset; lia
  | |- safe _ _ _ (forM _ tt _) _ =>
      apply safe_forM; [exact I | intros [] ? ?%elem_of_seq _]
  | |- safe _ _ _ (@mbind _ _ _ _ _ _) _ =>
      eapply (safe_bind _ _ _ _ _ (fun _ => True)); [|intros ? _]
  | |- safe _ _ _ (let _ := _ in _) _ => cbv zeta
  end.

Lemma fluid_deriv_rect (s : CombustionEngine) :
  num_nw_vars s = num_nw_fluids s + 3 ->
  exists B, fluid_deriv s = Ok B /\
    rect (num_nw_fluids s * 2) (7 + num_vars s) (num_nw_vars s) B.
Proof.
  intros Hv. apply run_on_safe; [apply rect_zeros3|].
  repeat safe_step.
Qed.

Lemma mass_flow_deriv_rect (s : CombustionEngine) :
  num_nw_vars s = num_nw_fluids s + 3 -> num_i s = 4 ->
  exists B, mass_flow_deriv s = Ok B /\
    rect 3 (7 + num_vars s) (num_nw_vars s) B.
Proof.
  intros Hv Hi. apply run_on_safe; [apply rect_zeros3|].
  repeat safe_step.
Qed.

Lemma pressure_deriv_rect (s : CombustionEngine) :
  num_nw_vars s = num_nw_fluids s + 3 ->
  exists B, pressure_deriv s = Ok B /\
    rect 2 (7 + num_vars s) (num_nw_vars s) B.
Proof.
  intros Hv. apply run_on_safe; [apply rect_zeros3|].
  repeat safe_step.
Qed.

Lemma set_rows_ok (E C V a n b : nat) (J B : Jac) :
  rect E C V J -> rect n C V B -> a + n <= E -> b = a + n ->
  exists J', set_rows J a b B = Ok J' /\ rect E C V J' /\
             take b J' = take a J ++ B.
Proof.
  intros HJ HB Hle ->.
  pose proof (rect_length _ _ _ _ HJ) as HlJ.
  pose proof (rect_length _ _ _ _ HB) as HlB.
  exists (take a J ++ B ++ drop (a + n) J).
  unfold set_rows. rewrite HlJ.
  replace (a `min` E) with a by lia.
  replace ((a + n) `min` E - a) with n by lia.
  assert (shape3 (take n (drop a J)) = replicate n (replicate C V)) as Hs.
  { unfold shape3. rewrite fmap_take, fmap_drop.
    change (shape2 <$> J) with (shape3 J). rewrite HJ.
    rewrite drop_replicate, take_replicate. f_equal. lia. }
  rewrite decide_True by (by rewrite Hs). split; [done|]. split.
  - unfold rect, shape3. rewrite !fmap_app, fmap_take, fmap_drop.
    change (shape2 <$> J) with (shape3 J).
    change (shape2 <$> B) with (shape3 B). rewrite HJ, HB.
    rewrite take_replicate, drop_replicate, <- !replicate_add.
    f_equal. lia.
  - rewrite app_assoc. apply take_app_length'.
    rewrite length_app, length_take. lia.
Qed.

(** ** Initialisation *)

Lemma register_fst (c : dc_cp) (n : nat) :
  is_set (register c n).1 = is_set c /\ is_var (register c n).1 = is_var c /\
  val (register c n).1 = val c /\ design (register c n).1 = design c.
Proof. unfold register. by destruct (is_var c) eqn:E. Qed.

Lemma register_snd (c : dc_cp) (n : nat) :
  (register c n).2 = n + (if is_var c then 1 else 0).
Proof. unfold register. destruct (is_var c); cbn; lia. Qed.

Lemma Component_comp_init_fields (s : CombustionEngine) (nw : Network) :
  let s' := Component_comp_init s nw in
  nw_fluids s' = fluids nw /\
  num_nw_fluids s' = length (fluids nw) /\
  num_nw_vars s' = length (fluids nw) + 3 /\
  num_i s' = 4 /\ num_o s' = 3 /\
  num_vars s' = count_var (parameters s) /\
  is_set <$> optional_parameters s' = is_set <$> optional_parameters s /\
  is_var (P s') = is_var (P s) /\ is_var (Qloss s') = is_var (Qloss s).
Proof.
  unfold Component_comp_init, optional_parameters, parameters.
  repeat match goal with
         | |- context [register ?c ?n] =>
             let H := fresh "E" in
             pose proof (register_fst c n) as H;
             pose proof (register_snd c n);
             destruct (register c n) as [? ?]; cbn [fst snd] in *;
             destruct H as (? & ? & ? & ?)
         end.
  cbn. repeat split; try done; try congruence.
  subst. lia.
Qed.

Lemma foldl_num_eq (s : CombustionEngine) (l : list dc_cp) :
  foldl (fun s var => if is_set var then with_num_eq s (num_eq s + 1) else s)
        s l
  = with_num_eq s (num_eq s + count_set l).
Proof.
  revert s. induction l as [|c l IH]; intros s; cbn.
  - destruct s; cbn. unfold with_num_eq; cbn. f_equal. lia.
  - rewrite IH. destruct (is_set c); cbn.
    + unfold with_num_eq; cbn. f_equal. lia.
    + done.
Qed.

Lemma count_set_fmap (l l' : list dc_cp) :
  is_set <$> l = is_set <$> l' -> count_set l = count_set l'.
Proof.
  revert l'. induction l as [|c l IH]; intros [|c' l']; cbn; try done.
  intros [= -> ?]. f_equal. by apply IH.
Qed.

Lemma comp_init_spec (ext : External) (s : CombustionEngine) (nw : Network) :
  exists init B1 B2 B3,
    comp_init ext s nw =
      ((if is_set (P s) then [] else [(INFO, msg_P s)]) ++
       (if is_set (Qloss s) then [] else [(INFO, msg_Qloss s)]), Ok init) /\
    nw_fluids (self init) = fluids nw /\
    num_nw_fluids (self init) = length (fluids nw) /\
    num_nw_vars (self init) = length (fluids nw) + 3 /\
    num_eq (self init) =
      length (fluids nw) * 2 + 3 + 2 + length (fluids nw) + 5
      + count_set (optional_parameters s) /\
    num_vars (self init) =
      count_var (parameters s)
      + (if negb (is_set (P s)) && negb (is_var (P s)) then 1 else 0)
      + (if negb (is_set (Qloss s)) && negb (is_var (Qloss s)) then 1 else 0) /\
    is_var (P (self init)) = is_var (P s) || negb (is_set (P s)) /\
    is_var (Qloss (self init)) = is_var (Qloss s) || negb (is_set (Qloss s)) /\
    residual init = zeros (num_eq (self init)) /\
    rect (num_eq (self init)) (7 + num_vars (self init))
         (num_nw_vars (self init)) (jacobian init) /\
    fluid_deriv (self init) = Ok B1 /\
    mass_flow_deriv (self init) = Ok B2 /\
    pressure_deriv (self init) = Ok B3 /\
    take (num_nw_fluids (self init) * 2 + 5) (jacobian init) = B1 ++ B2 ++ B3.
Proof.
  unfold comp_init.
  destruct (is_set (P s)) eqn:EP; cbn [negb]; cbv beta iota zeta;
    try change (Qloss (with_P_Qloss s (set_attr_var (P s)) (Qloss s)))
          with (Qloss s);
    destruct (is_set (Qloss s)) eqn:EQ; cbn [negb]; cbv beta iota zeta.
  all: rewrite foldl_num_eq.
  all: match goal with
       | |- context [Component_comp_init ?s0 ?nw0] =>
           pose proof (Component_comp_init_fields s0 nw0) as Hf;
           cbv zeta in Hf;
           set (s1 := Component_comp_init s0 nw0) in *
       end.
  all: destruct Hf as (Hnf & HF & HV & Hi & Ho & Hnv & Hopt & HvP & HvQ).
  all: repeat match type of Hopt with
         | context [optional_parameters (with_P_Qloss ?a ?b ?c)] =>
             change (optional_parameters (with_P_Qloss a b c))
               with (optional_parameters a) in Hopt
         end.
  all: clearbody s1.
  all: match goal with
       | |- context [fluid_deriv ?t] => set (s3 := t) in *
       end.
  all: assert (num_nw_fluids s3 = length (fluids nw) /\
               num_nw_vars s3 = num_nw_fluids s3 + 3 /\
               num_i s3 = 4 /\ num_o s3 = 3 /\ num_vars s3 = num_vars s1 /\
               nw_fluids s3 = fluids nw /\
               is_var (P s3) = is_var (P s1) /\
               is_var (Qloss s3) = is_var (Qloss s1) /\
               num_eq s3 = num_nw_fluids s3 * 2 + 5
                           + (num_nw_fluids s3 + 5
                              + count_set (optional_parameters s1)))
         as (HF3 & HV3 & Hi3 & Ho3 & Hnv3 & Hnf3 & HvP3 & HvQ3 & HE3)
         by (subst s3; cbn; repeat split; try done; lia).
  all: rewrite (count_set_fmap _ _ Hopt) in HE3.
  all: destruct (fluid_deriv_rect s3 HV3) as (B1 & HB1 & HR1).
  all: destruct (mass_flow_deriv_rect s3 HV3 Hi3) as (B2 & HB2 & HR2).
  all: destruct (pressure_deriv_rect s3 HV3) as (B3 & HB3 & HR3).
  all: rewrite HB1, HB2, HB3; cbn [mbind result_bind].
  all: rewrite Hi3, Ho3; change (4 + 3 + num_vars s3) with (7 + num_vars s3).
  all: destruct (set_rows_ok (num_eq s3) (7 + num_vars s3) (num_nw_vars s3)
                   0 (num_nw_fluids s3 * 2) (num_nw_fluids s3 * 2)
                   (zeros3 (num_eq s3) (7 + num_vars s3) (num_nw_vars s3)) B1)
         as (J1 & HJ1 & HRJ1 & HT1); [apply rect_zeros3 | done | lia | lia |].
  all: destruct (set_rows_ok (num_eq s3) (7 + num_vars s3) (num_nw_vars s3)
                   (num_nw_fluids s3 * 2) 3 (num_nw_fluids s3 * 2 + 3) J1 B2)
         as (J2 & HJ2 & HRJ2 & HT2); [done | done | lia | lia |].
  all: destruct (set_rows_ok (num_eq s3) (7 + num_vars s3) (num_nw_vars s3)
                   (num_nw_fluids s3 * 2 + 3) 2 (num_nw_fluids s3 * 2 + 5) J2 B3)
         as (J3 & HJ3 & HRJ3 & HT3); [done | done | lia | lia |].
  all: rewrite HJ1; cbn [mbind result_bind]; rewrite HJ2; cbn [mbind result_bind];
       rewrite HJ3; cbn [mbind result_bind mret result_ret].
  all: eexists _, B1, B2, B3; split; [reflexivity|]; cbn [self residual jacobian].
  all: set (rp := setup_reaction_parameters ext s3).
  all: change (nw_fluids (with_reaction_parameters s3 rp)) with (nw_fluids s3).
  all: change (num_nw_fluids (with_reaction_parameters s3 rp))
         with (num_nw_fluids s3).
  all: change (num_nw_vars (with_reaction_parameters s3 rp))
         with (num_nw_vars s3).
  all: change (num_eq (with_reaction_parameters s3 rp)) with (num_eq s3).
  all: change (num_vars (with_reaction_parameters s3 rp)) with (num_vars s3).
  all: change (P (with_reaction_parameters s3 rp)) with (P s3).
  all: change (Qloss (with_reaction_parameters s3 rp)) with (Qloss s3).
  all: change (fluid_deriv (with_reaction_parameters s3 rp))
         with (fluid_deriv s3).
  all: change (mass_flow_deriv (with_reaction_parameters s3 rp))
         with (mass_flow_deriv s3).
  all: change (pressure_deriv (with_reaction_parameters s3 rp))
         with (pressure_deriv s3).
  all: clearbody rp s3.
  all: cbn [with_P_Qloss P Qloss set_attr_var is_var] in HvP, HvQ.
  all: rewrite HvP3, HvQ3, HvP, HvQ.
  all: split; [exact Hnf3|]; split; [exact HF3|]; split; [lia|].
  all: split; [lia|].
  all: split;
    [ rewrite Hnv3, Hnv; unfold parameters;
      cbn [count_var with_P_Qloss lamb ti P Q1 Q2 Qloss pr1 pr2 zeta1 zeta2
           set_attr_var is_var];
      destruct (is_var (P s)), (is_var (Qloss s)); cbn [negb andb]; lia |].
  all: split; [by destruct (is_var (P s))|].
  all: split; [by destruct (is_var (Qloss s))|].
  all: split; [done|]. all: split; [done|].
  all: repeat (split; [done|]).
  all: rewrite HT3, HT2, HT1; by rewrite <- app_assoc.
Qed.

(** C3.  For a network of [F] fluids [comp_init] returns, and the number
    of equations it records is [2 * F] (species of the cooling loops)
    [+ 3] (mass flow) [+ 2] (pressure) [+ F] (reaction balance) [+ 5]
    (energy balance and the four characteristic couplings), plus one for
    each of [lamb], [ti], [Q1], [Q2], [pr1], [pr2], [zeta1], [zeta2] that
    is set; the residual vector has that length; and whatever [P] and
    [Qloss] are replaced with, the number is the same. *)
Theorem comp_init_num_eq (ext : External) (s : CombustionEngine)
    (nw : Network) :
  exists init,
    (comp_init ext s nw).2 = Ok init /\
    num_eq (self init) =
      2 * length (fluids nw) + 3 + 2 + length (fluids nw) + 5
      + count_set [lamb s; ti s; Q1 s; Q2 s; pr1 s; pr2 s; zeta1 s; zeta2 s] /\
    length (residual init) = num_eq (self init) /\
    forall P' Qloss' : dc_cp,
      exists init',
        (comp_init ext (with_P_Qloss s P' Qloss') nw).2 = Ok init' /\
        num_eq (self init') = num_eq (self init).
Proof.
  destruct (comp_init_spec ext s nw)
    as (init & B1 & B2 & B3 & E & _ & _ & _ & HE & _ & _ & _ & Hr & _).
  exists init. rewrite E. split; [done|]. split.
  { rewrite HE. unfold optional_parameters. lia. }
  split.
  { rewrite Hr. unfold zeros. by rewrite length_replicate. }
  intros P' Qloss'.
  destruct (comp_init_spec ext (with_P_Qloss s P' Qloss') nw)
    as (init' & ? & ? & ? & E' & _ & _ & _ & HE' & _).
  exists init'. rewrite E'. split; [done|]. by rewrite HE, HE'.
Qed.

(** C4.  [comp_init] never fails for want of [P] or [Qloss]: it returns;
    it logs one INFO record for [P] when [P] is not set and one for
    [Qloss] when [Qloss] is not set, and nothing else; afterwards [P] is a
    free variable exactly if it was one or was not set, and likewise
    [Qloss]; and the number of free variables of the component is the
    number of parameters that were free, plus one for each of [P] and
    [Qloss] that has been promoted. *)
Theorem comp_init_promotes (ext : External) (s : CombustionEngine)
    (nw : Network) :
  exists init,
    comp_init ext s nw =
      ((if is_set (P s) then [] else [(INFO, msg_P s)]) ++
       (if is_set (Qloss s) then [] else [(INFO, msg_Qloss s)]), Ok init) /\
    is_var (P (self init)) = is_var (P s) || negb (is_set (P s)) /\
    is_var (Qloss (self init)) = is_var (Qloss s) || negb (is_set (Qloss s)) /\
    num_vars (self init) =
      count_var (parameters s)
      + (if negb (is_set (P s)) && negb (is_var (P s)) then 1 else 0)
      + (if negb (is_set (Qloss s)) && negb (is_var (Qloss s)) then 1 else 0).
Proof.
  destruct (comp_init_spec ext s nw)
    as (init & B1 & B2 & B3 & E & _ & _ & _ & _ & Hv & HP & HQ & _).
  by exists init.
Qed.

(** C7.  Whatever the increment filter, the component and the Jacobian,
    and however [derivatives] ends, the rows [0 .. 2 * F + 4] of the
    Jacobian are afterwards what they were before.  After [comp_init]
    these rows are the blocks returned by [fluid_deriv], [mass_flow_deriv]
    and [pressure_deriv], and every later call of [derivatives] finds and
    leaves them so. *)
Theorem derivatives_keeps_constant_rows (ext : External)
    (s : CombustionEngine) (increment_filter : list (list bool)) (J : Jac) :
  take (num_nw_fluids s * 2 + 5) (derivatives ext s increment_filter J).1
    = take (num_nw_fluids s * 2 + 5) J /\
  forall nw : Network,
    exists init B1 B2 B3,
      (comp_init ext s nw).2 = Ok init /\
      fluid_deriv (self init) = Ok B1 /\
      mass_flow_deriv (self init) = Ok B2 /\
      pressure_deriv (self init) = Ok B3 /\
      take (num_nw_fluids (self init) * 2 + 5) (jacobian init)
        = B1 ++ B2 ++ B3 /\
      forall (s' : CombustionEngine) (filter : list (list bool)),
        num_nw_fluids s' = num_nw_fluids (self init) ->
        take (num_nw_fluids s' * 2 + 5)
             (derivatives ext s' filter (jacobian init)).1
          = B1 ++ B2 ++ B3.
Proof.
  split; [apply (frame_derivatives ext s increment_filter J)|].
  intros nw.
  destruct (comp_init_spec ext s nw)
    as (init & B1 & B2 & B3 & E & _ & _ & _ & _ & _ & _ & _ & _ & _
        & H1 & H2 & H3 & HT).
  exists init, B1, B2, B3. rewrite E. repeat (split; [done|]).
  intros s' filter HF.
  destruct (frame_derivatives ext s' filter (jacobian init)) as [-> _].
  by rewrite HF.
Qed.

(** ** Bus accounting *)

Lemma raises_only_ret {S A} (a : A) : raises_only (mret a : M S A).
Proof. by intros s s' e [=]. Qed.

Lemma raises_only_bind {S A B} (c : M S A) (f : A -> M S B) :
  raises_only c -> (forall a, raises_only (f a)) -> raises_only (c ≫= f).
Proof.
  intros Hc Hf s s' e. unfold mbind, M_bind.
  destruct (c s) as [s1 [a|e1]] eqn:E.
  - apply Hf.
  - intros [= <- <-]. by eapply Hc.
Qed.

Lemma raises_only_forM {S A B} (l : list A) (acc : B)
    (body : B -> A -> M S B) :
  (forall a x, raises_only (body a x)) -> raises_only (forM l acc body).
Proof.
  intros Hb. revert acc. induction l as [|x l IH]; intros acc; cbn.
  - apply raises_only_ret.
  - by apply raises_only_bind.
Qed.

Lemma raises_only_when {S} (b : bool) (c : M S unit) :
  raises_only c -> raises_only (when_ b c).
Proof. destruct b; [done|]. intros _. apply raises_only_ret. Qed.

Lemma getidx_raises {A} (l : list A) (i : nat) (e : exn) :
  getidx l i = Raise e -> e = IndexError.
Proof. unfold getidx. destruct (l !! i); by intros [=]. Qed.

Lemma setidx_raises {A} (l : list A) (i : nat) (x : A) (e : exn) :
  setidx l i x = Raise e -> e = IndexError.
Proof. unfold setidx. case_decide; by intros [=]. Qed.

Lemma set_slice_raises (r : list float) (a b : nat) (vals : list float)
    (e : exn) :
  set_slice r a b vals = Raise e -> array_error e.
Proof.
  unfold set_slice, broadcast. case_decide; [done|].
  destruct vals as [|x [|y vals]]; cbn; try done; intros [= <-]; by right.
Qed.

Lemma raises_only_jset (k i j : nat) (v : float) :
  raises_only (jset k i j v).
Proof.
  intros J J' e. unfold jset, update.
  destruct (set3 J k i j v) as [J1|e1] eqn:E; [done|]. intros [= <- <-].
  left. unfold set3 in E.
  destruct (getidx J k) as [row|] eqn:E1; cbn in E;
    [|injection E as <-; by eapply getidx_raises].
  destruct (getidx row i) as [col|] eqn:E2; cbn in E;
    [|injection E as <-; by eapply getidx_raises].
  destruct (setidx col j v) as [col'|] eqn:E3; cbn in E;
    [|injection E as <-; by eapply setidx_raises].
  destruct (setidx row i col') as [row'|] eqn:E4; cbn in E;
    [|injection E as <-; by eapply setidx_raises].
  by eapply setidx_raises.
Qed.

Lemma raises_only_jset_from (k i j0 : nat) (vals : list float) :
  raises_only (jset_from k i j0 vals).
Proof.
  intros J J' e. unfold jset_from, update.
  destruct (set3_from J k i j0 vals) as [J1|e1] eqn:E; [done|].
  intros [= <- <-]. unfold set3_from in E.
  destruct (getidx J k) as [row|] eqn:E1; cbn in E;
    [|injection E as <-; left; by eapply getidx_raises].
  destruct (getidx row i) as [col|] eqn:E2; cbn in E;
    [|injection E as <-; left; by eapply getidx_raises].
  destruct (set_slice col j0 (length col) vals) as [col'|] eqn:E3; cbn in E;
    [|injection E as <-; by eapply set_slice_raises].
  destruct (setidx row i col') as [row'|] eqn:E4; cbn in E;
    [|injection E as <-; left; by eapply setidx_raises].
  left. by eapply setidx_raises.
Qed.

Lemma run_on_raises {S} (s0 : S) (c : M S unit) (e : exn) :
  raises_only c -> run_on s0 c = Raise e -> array_error e.
Proof.
  intros Hc. unfold run_on. destruct (c s0) as [s [[]|e1]] eqn:E; [done|].
  intros [= <-]. by eapply Hc.
Qed.

Ltac raises_only_tac :=
  repeat first
    [ apply raises_only_ret
    | apply raises_only_jset
    | apply raises_only_jset_from
    | apply raises_only_when
    | apply raises_only_forM; intros ? ?
    | apply raises_only_bind; [|intros ?] ].

Lemma invalid_bus_parameter_not_array_error (b : BusRow) :
  ~ array_error (ValueError (invalid_bus_parameter b)).
Proof. by intros [[=]|[=]]. Qed.

Lemma not_bus_parameter (x : string) :
  x ∉ bus_parameters <->
  String.eqb x "TI" = false /\ String.eqb x "P" = false /\
  String.eqb x "Q" = false /\ String.eqb x "Q1" = false /\
  String.eqb x "Q2" = false /\ String.eqb x "Qloss" = false.
Proof.
  unfold bus_parameters. rewrite !not_elem_of_cons, !String.eqb_neq.
  split; [tauto|]. intros. repeat split; try tauto. apply not_elem_of_nil.
Qed.

(** C6, as stated, fails for the names [P] and [Qloss] where a design
    value of zero is recorded for the power: the load ratio both values
    start from is not computed, and [bus_func] raises
    [ZeroDivisionError]. *)
Lemma zero_design_bus :
  design (P zero_design_scenario) = 0%float /\
  bus_func zero_design_scenario {| param := "P" |}
    = ([], Raise ZeroDivisionError) /\
  bus_func zero_design_scenario {| param := "Qloss" |}
    = ([], Raise ZeroDivisionError).
Proof. repeat split. Qed.

(** C6, amended.  [bus_func] returns a number for the parameter names
    [TI], [Q], [Q1] and [Q2], the thermal input and the heat of both
    cooling loops, of loop 1 and of loop 2, and, where the load ratio is
    defined (no design value of [P] is recorded, or one that is not
    zero), for [P] and [Qloss]: the power [- ti / f_TI(load)] and the
    heat loss [- ti * f_Qloss(load) / f_TI(load)]; with a design value of
    zero these two raise [ZeroDivisionError].  For any other name it logs
    the error and raises [ValueError] with the message that the parameter
    is not valid, at once: nothing else is evaluated.  [bus_deriv] raises
    that exception for exactly the same names. *)
Theorem bus_parameter_names (ext : External) (s : CombustionEngine)
    (b : BusRow) (bus : Bus)
    (in1 in2 in3 in4 out1 out2 out3 : Connection) :
  inl s = [in1; in2; in3; in4] -> outl s = [out1; out2; out3] ->
  fuels_known s [in3; in4; out3] = true ->
  getitem (comps bus) (label s) = Ok b ->
  let t := thermal_input s in3 in4 out3 in
  let f_TI := evaluate (func (tiP_char s)) (load_ratio s) in
  let f_Qloss := evaluate (func (Qloss_char s)) (load_ratio s) in
  (param b = "TI" -> bus_func s b = ([], Ok t)) /\
  (param b = "P" ->
   bus_func s b =
     ([], if nonzero_design s then Ok (- t / f_TI)%float
          else Raise ZeroDivisionError)) /\
  (param b = "Q" ->
   bus_func s b =
     ([], Ok (0 - m in1 * (h out1 - h in1) - m in2 * (h out2 - h in2))%float)) /\
  (param b = "Q1" ->
   bus_func s b = ([], Ok (- m in1 * (h out1 - h in1))%float)) /\
  (param b = "Q2" ->
   bus_func s b = ([], Ok (- m in2 * (h out2 - h in2))%float)) /\
  (param b = "Qloss" ->
   bus_func s b =
     ([], if nonzero_design s then Ok (- t * f_Qloss / f_TI)%float
          else Raise ZeroDivisionError)) /\
  (param b ∈ bus_parameters ->
   nonzero_design s = true \/ param b ∈ ["TI"; "Q"; "Q1"; "Q2"] ->
   exists v, bus_func s b = ([], Ok v)) /\
  (param b ∉ bus_parameters -> bus_func s b = invalid_bus b) /\
  (param b ∉ bus_parameters <-> bus_deriv ext s bus = invalid_bus b).
Proof.
  intros Hi Ho Hk Hb. cbv zeta. unfold invalid_bus.
  pose proof (calc_ti_thermal_input s _ _ _ _ _ _ _ Hi Ho Hk) as Hti.
  assert (calc_P s =
            if nonzero_design s
            then Ok (- thermal_input s in3 in4 out3
                       / evaluate (func (tiP_char s)) (load_ratio s))%float
            else Raise ZeroDivisionError) as HP.
  { unfold calc_P. destruct (nonzero_design s) eqn:Hd.
    - by rewrite (load_expr_defined s Hd), Hti.
    - by rewrite (load_expr_zero s Hd). }
  assert (calc_Qloss s =
            if nonzero_design s
            then Ok (- thermal_input s in3 in4 out3
                       * evaluate (func (Qloss_char s)) (load_ratio s)
                       / evaluate (func (tiP_char s)) (load_ratio s))%float
            else Raise ZeroDivisionError) as HQ.
  { unfold calc_Qloss. destruct (nonzero_design s) eqn:Hd.
    - by rewrite (load_expr_defined s Hd), Hti.
    - by rewrite (load_expr_zero s Hd). }
  assert (forall x, param b = x -> x ∈ ["TI"; "Q"; "Q1"; "Q2"] ->
            exists v, bus_func s b = ([], Ok v)) as Hval.
  { intros x Hx Hin.
    unfold bus_func. rewrite Hx, Hti, Hi, Ho.
    repeat (apply elem_of_cons in Hin as [-> | Hin]; [cbn; eauto|]).
    by apply elem_of_nil in Hin. }
  split; [|split; [|split; [|split; [|split; [|split; [|split; [|split;
    [|split]]]]]]]].
  1-6: intros Hp; unfold bus_func; rewrite Hp, ?HP, ?HQ, ?Hti, ?Hi, ?Ho;
       reflexivity.
  - intros Hin [Hd|Hfour]; [|by eapply Hval].
    unfold bus_parameters in Hin.
    repeat (apply elem_of_cons in Hin as [Hp | Hin];
            [first [eapply Hval; [exact Hp|set_solver]
                   |unfold bus_func; rewrite Hp, ?HP, ?HQ, Hd; cbn; eauto]|]).
    by apply elem_of_nil in Hin.
  - intros (H1 & H2 & H3 & H4 & H5 & H6)%not_bus_parameter.
    unfold bus_func. by rewrite H1, H2, H3, H4, H5, H6.
  - intros (H1 & H2 & H3 & H4 & H5 & H6)%not_bus_parameter.
    unfold bus_deriv. rewrite Hb. by rewrite H1, H2, H3, H4, H5, H6.
  - intros Hd Hin. unfold bus_deriv in Hd. rewrite Hb in Hd.
    unfold bus_parameters in Hin.
    assert (forall c : M Jac unit, raises_only c ->
              ([], run_on (zeros3 1 (7 + num_vars s) (num_nw_vars s)) c)
              <> ([(ERROR, invalid_bus_parameter b)],
                  Raise (ValueError (invalid_bus_parameter b)))) as Hne.
    { intros c Hc [= ?]. }
    repeat (apply elem_of_cons in Hin as [Hp | Hin];
            [rewrite Hp in Hd; cbn in Hd; revert Hd; apply Hne;
             raises_only_tac|]).
    by apply elem_of_nil in Hin.
Qed.

Lemma bus_parameter_names_witness :
  bus_func mass_flow_scenario unknown_bus_row = invalid_bus unknown_bus_row /\
  bus_deriv no_collaborators mass_flow_scenario unknown_bus
    = invalid_bus unknown_bus_row.
Proof.
  assert ("X" ∉ bus_parameters) as Hx.
  { apply not_bus_parameter. repeat split; reflexivity. }
  pose proof (bus_parameter_names no_collaborators mass_flow_scenario
                unknown_bus_row unknown_bus _ _ _ _ _ _ _
                eq_refl eq_refl eq_refl eq_refl) as H.
  cbv zeta in H. destruct H as (_ & _ & _ & _ & _ & _ & _ & H8 & H9).
  split; [by apply H8 | by apply H9].
Defined.

(** ** Starting values of the flue gas

    What the comparisons of binary64 say about zero, from the
    specification of the primitive operations. *)

Lemma Prim2SF_zero_inv (x : float) (sg : bool) :
  Prim2SF x = S754_zero sg -> x = 0%float \/ x = (-0)%float.
Proof.
  intros H. rewrite <- (SF2Prim_Prim2SF x), H.
  destruct sg; [right|left]; reflexivity.
Qed.

Lemma eqb_zero_inv (x : float) :
  (x =? 0)%float = true -> x = 0%float \/ x = (-0)%float.
Proof.
  rewrite FloatAxioms.eqb_spec. change (Prim2SF 0) with (S754_zero false).
  destruct (Prim2SF x) as [sg|sg| |sg mm ee] eqn:E; cbn; try done.
  - intros _. by eapply Prim2SF_zero_inv.
  - by destruct sg.
  - by destruct sg.
Qed.

Lemma not_positive_zero (x : float) :
  (0 <=? x)%float = true -> (0 <? x)%float = false ->
  x = 0%float \/ x = (-0)%float.
Proof.
  rewrite FloatAxioms.leb_spec, FloatAxioms.ltb_spec. change (Prim2SF 0) with (S754_zero false).
  destruct (Prim2SF x) as [sg|sg| |sg mm ee] eqn:E; cbn; try done.
  - intros _ _. by eapply Prim2SF_zero_inv.
  - by destruct sg.
  - by destruct sg.
Qed.

Lemma getitem_setitem_eq {A} (d : list (string * A)) (k : string) (v : A) :
  getitem (setitem d k v) k = Ok v.
Proof.
  induction d as [|[k' v'] d IH]; cbn.
  - by rewrite String.eqb_refl.
  - destruct (String.eqb k k') eqn:E; cbn; rewrite E; [done|exact IH].
Qed.

Lemma getitem_setitem_ne {A} (d : list (string * A)) (k k' : string) (v : A) :
  k <> k' -> getitem (setitem d k v) k' = getitem d k'.
Proof.
  intros Hne. pose proof Hne as Hb.
  apply String.eqb_neq in Hb. rewrite String.eqb_sym in Hb.
  induction d as [|[k2 v2] d IH]; cbn.
  - by rewrite Hb.
  - destruct (String.eqb k k2) eqn:E; cbn.
    + apply String.eqb_eq in E as <-. by rewrite Hb.
    + by rewrite IH.
Qed.

Lemma getitem_setitem_defined {A} (d : list (string * A)) (k k' : string)
    (v : A) :
  (exists x, getitem d k' = Ok x) -> exists x, getitem (setitem d k v) k' = Ok x.
Proof.
  intros Hx. destruct (decide (k = k')) as [<-|Hne].
  - rewrite getitem_setitem_eq. eauto.
  - by rewrite getitem_setitem_ne.
Qed.

Lemma add_half_zeroish (x : float) : zeroish x -> (0 + x / 2 = 0)%float.
Proof. by intros [-> | ->]. Qed.

Section Fluids.

Variable ext : External.
Variable s : CombustionEngine.

Local Abbreviation inner f :=
  (fun (fact_fuel : list (string * float)) (i : Connection) =>
     a ← getitem fact_fuel f;
     x ← getitem (fluid_val i) f;
     mret (setitem fact_fuel f (a + x / 2)%float)).

Lemma inner_loop (f : string) (l : list Connection) (fact : list (string * float)) :
  (forall i, i ∈ l ->
     match getitem (fluid_val i) f with Ok x => zeroish x | Raise _ => True end) ->
  getitem fact f = Ok 0%float ->
  match for_ l fact (inner f) with
  | Ok fact' =>
      getitem fact' f = Ok 0%float /\
      (forall g, (exists x, getitem fact g = Ok x) -> exists x, getitem fact' g = Ok x) /\
      forall i, i ∈ l -> exists x, getitem (fluid_val i) f = Ok x
  | Raise e => exists i, i ∈ l /\ getitem (fluid_val i) f = Raise e
  end.
Proof.
  revert fact. induction l as [|i l IH]; intros fact Hz Hf; cbn.
  - split; [done|]. split; [done|]. intros i []%elem_of_nil.
  - rewrite Hf. cbn.
    pose proof (Hz i ltac:(set_solver)) as Hi.
    destruct (getitem (fluid_val i) f) as [x|e] eqn:E; cbn.
    + rewrite (add_half_zeroish x Hi).
      specialize (IH (setitem fact f 0%float)
                    (fun j Hj => Hz j ltac:(set_solver))
                    (getitem_setitem_eq _ _ _)).
      destruct (for_ l (setitem fact f 0%float) (inner f)) as [fact'|e'].
      * destruct IH as (H1 & H2 & H3). split; [done|]. split.
        -- intros g Hg. apply H2. by apply getitem_setitem_defined.
        -- intros j [->|Hj]%elem_of_cons; eauto.
      * destruct IH as (j & Hj & Hje). exists j. split; [set_solver|done].
    + exists i. split; [set_solver|done].
Qed.

Local Abbreviation outer :=
  (fun '(fact_fuel, sum_fuel) (f : string) =>
      let fact_fuel := setitem fact_fuel f 0%float in
      fact_fuel ← for_ (inl s) fact_fuel (fun fact_fuel i =>
        a ← getitem fact_fuel f;
        x ← getitem (fluid_val i) f;
        mret (setitem fact_fuel f (a + x / 2)%float));
      a ← getitem fact_fuel f;
      mret (fact_fuel, (sum_fuel + a)%float)).

Lemma outer_loop (l : list string) (fact : list (string * float)) :
  (forall f i, f ∈ l -> i ∈ inl s ->
     match getitem (fluid_val i) f with Ok x => zeroish x | Raise _ => True end) ->
  match for_ l (fact, 0%float) outer with
  | Ok (fact', sum') =>
      sum' = 0%float /\
      (forall g, g ∈ l -> exists x, getitem fact' g = Ok x) /\
      (forall g, (exists x, getitem fact g = Ok x) ->
                 exists x, getitem fact' g = Ok x) /\
      forall f i, f ∈ l -> i ∈ inl s -> exists x, getitem (fluid_val i) f = Ok x
  | Raise e => exists f i, f ∈ l /\ i ∈ inl s /\ getitem (fluid_val i) f = Raise e
  end.
Proof.
  revert fact. induction l as [|f l IH]; intros fact Hz.
  - cbn. split; [done|]. split; [by intros g []%elem_of_nil|].
    split; [done|]. by intros f i []%elem_of_nil.
  - cbn [for_]. cbn beta iota zeta.
    pose proof (inner_loop f (inl s) (setitem fact f 0%float)
                  (fun i Hi => Hz f i ltac:(set_solver) Hi)
                  (getitem_setitem_eq _ _ _)) as Hin.
    destruct (for_ (inl s) (setitem fact f 0%float) _) as [fact1|e]; cbn.
    + destruct Hin as (H1 & H2 & H3). rewrite H1. cbn.
      change (0 + 0)%float with 0%float.
      specialize (IH fact1 (fun g i Hg Hi => Hz g i ltac:(set_solver) Hi)).
      destruct (for_ l (fact1, 0%float) _) as [[fact' sum']|e'].
      * destruct IH as (Hs & Hk & Hm & Hl). split; [done|]. split.
        { intros g [->|Hg]%elem_of_cons; [|by apply Hk].
          apply Hm. eauto. }
        split.
        { intros g Hg. apply Hm, H2. by apply getitem_setitem_defined. }
        intros g i [->|Hg]%elem_of_cons Hi; [by apply H3|by apply Hl].
      * destruct IH as (g & i & Hg & Hi & E). exists g, i. set_solver.
    + destruct Hin as (i & Hi & E). exists f, i. set_solver.
Qed.

Lemma flue_gas_no_fuel :
  fuel_list s <> [] -> no_fuel s ->
  flue_gas ext s = Raise ZeroDivisionError \/
  exists f i e, f ∈ fuel_list s /\ i ∈ inl s /\
                getitem (fluid_val i) f = Raise e /\ flue_gas ext s = Raise e.
Proof.
  intros Hne Hz. unfold flue_gas. cbv zeta.
  pose proof (outer_loop (fuel_list s) [] Hz) as Ho.
  destruct (for_ (fuel_list s) ([], 0%float) _) as [[fact sum]|e]; cbn.
  - destruct Ho as (-> & Hk & _). left.
    destruct (fuel_list s) as [|f l]; [done|].
    destruct (Hk f ltac:(set_solver)) as [a Ha]. cbn. rewrite Ha. done.
  - right. destruct Ho as (f & i & ? & ? & ?). by exists f, i, e.
Qed.

End Fluids.

(** C10.  [initialise_fluids] divides the averaging factor of every fuel by
    their sum with no guard.  With a fuel in the fuel list and every fuel
    at mass fraction zero at every inlet, the dictionary of starting
    values is not computed: the division raises [ZeroDivisionError], and
    so does [initialise_fluids], before it has written a value or called
    the target of the flue gas connection.  Conversely, when the
    dictionary is
    computed and no fraction is negative, some fuel has a positive
    fraction at some inlet. *)
Theorem initialise_fluids_needs_fuel (ext : External) (s : CombustionEngine) :
  fuel_list s <> [] ->
  ((forall f i, f ∈ fuel_list s -> i ∈ inl s ->
      exists x, getitem (fluid_val i) f = Ok x /\ (x =? 0)%float = true) ->
   flue_gas ext s = Raise ZeroDivisionError /\
   forall call net outl st,
     initialise_fluids ext s call net outl st
     = (st, Raise ZeroDivisionError)) /\
  ((exists fg, flue_gas ext s = Ok fg) ->
   (forall f i x, f ∈ fuel_list s -> i ∈ inl s ->
      getitem (fluid_val i) f = Ok x -> (0 <=? x)%float = true) ->
   exists f i x, f ∈ fuel_list s /\ i ∈ inl s /\
     getitem (fluid_val i) f = Ok x /\ (0 <? x)%float = true).
Proof.
  intros Hne. split.
  - intros Hz.
    assert (flue_gas ext s = Raise ZeroDivisionError) as E.
    { destruct (flue_gas_no_fuel ext s Hne) as [E|(f & i & e & Hf & Hi & E & _)].
      - intros f i Hf Hi. destruct (Hz f i Hf Hi) as (x & -> & Hx).
        by apply eqb_zero_inv.
      - done.
      - destruct (Hz f i Hf Hi) as (x & Hx & _). congruence. }
    split; [done|]. intros call net outl st.
    unfold initialise_fluids. by rewrite E.
  - intros [fg Hfg] Hpos.
    destruct (existsb (fun f => existsb (fun i =>
                match getitem (fluid_val i) f with
                | Ok x => (0 <? x)%float
                | Raise _ => false
                end) (inl s)) (fuel_list s)) eqn:Hex.
    + apply existsb_exists in Hex as (f & Hf & Hex).
      apply existsb_exists in Hex as (i & Hi & Hex).
      destruct (getitem (fluid_val i) f) as [x|] eqn:E; [|done].
      exists f, i, x. by rewrite <- !list_elem_of_In in *.
    + exfalso.
      destruct (flue_gas_no_fuel ext s Hne) as [E|(f & i & e & _ & _ & _ & E)];
        [|congruence..].
      intros f i Hf Hi.
      destruct (getitem (fluid_val i) f) as [x|] eqn:E; [|done].
      apply not_positive_zero; [by eapply Hpos|].
      destruct (0 <? x)%float eqn:Hlt; [|done].
      rewrite <- Hex. symmetry. apply existsb_exists.
      exists f. split; [by apply list_elem_of_In|].
      apply existsb_exists. exists i. split; [by apply list_elem_of_In|].
      by rewrite E.
Qed.

Lemma initialise_fluids_needs_fuel_witness :
  flue_gas no_collaborators no_fuel_scenario = Raise ZeroDivisionError /\
  initialise_fluids no_collaborators no_fuel_scenario
    (propagate_fluid_to_target 3 cooling_circuit) cooling_circuit [4; 5; 6]
    ring_store
  = (ring_store, Raise ZeroDivisionError).
Proof.
  destruct (initialise_fluids_needs_fuel no_collaborators no_fuel_scenario)
    as [Hraise _]; [discriminate|].
  destruct Hraise as [Hfg Hinit].
  - intros f i Hf Hi. apply list_elem_of_singleton in Hf as ->.
    repeat (apply elem_of_cons in Hi as [-> | Hi];
            [eexists; split; reflexivity|]).
    by apply elem_of_nil in Hi.
  - split; [exact Hfg|apply Hinit].
Defined.

(** With methane at the inlet [in4] the starting values are computed. *)
Example flue_gas_with_fuel :
  exists fg, flue_gas no_collaborators mass_flow_scenario = Ok fg.
Proof. eexists. vm_compute. reflexivity. Qed.

(** ** Propagation of the fluid composition *)

(** *** What a loop preserves *)

Lemma bind_inv {S A B} (I : S -> Prop) (c : M S A) (f : A -> M S B) (st : S) :
  I (c st).1 -> (forall a st', I st' -> I (f a st').1) ->
  I ((c ≫= f) st).1.
Proof.
  intros Hc Hf. unfold mbind, M_bind.
  destruct (c st) as [st' [a|e]]; cbn in *; auto.
Qed.

Lemma forM_inv {S A B} (I : S -> Prop) (l : list A)
    (body : B -> A -> M S B) :
  (forall acc x st, x ∈ l -> I st -> I (body acc x st).1) ->
  forall acc st, I st -> I (forM l acc body st).1.
Proof.
  induction l as [|x l IH]; intros Hb acc st Hst; [done|].
  cbn [forM]. apply bind_inv.
  - apply Hb; [apply elem_of_cons; by left|done].
  - intros acc' st' Hst'. apply IH; [|done].
    intros acc'' y st'' Hy. apply Hb. apply elem_of_cons. by right.
Qed.


(** *** Calls that do not exhaust the stack *)




(** *** The loop over the items *)

Lemma store_fluid_other (dst : nat) (fluid : string) (x : float)
    (st : Store) (c : nat) :
  c <> dst -> (store_fluid dst fluid x st).1 c = st c.
Proof.
  intros Hc. unfold store_fluid. cbn.
  by destruct (Nat.eqb_spec c dst).
Qed.



(** *** The methods of the engine *)

Section Methods.

Variable net : Topology.
Variable start : nat.





(** *** Termination along a rank *)

Variable rank : nat -> nat.




End Methods.

(** *** The ring of two engines *)







(** The run of the witness: the composition of the connection 0 reaches
    the two cooling outlets, and the heat consumer, the starting point,
    stops the recursion. *)
Example cooling_circuit_run :
  exists st,
    propagate_fluid_to_target 2 cooling_circuit 0 0 1
      (fun c => if Nat.eqb c 0 then conn 1 0 0.25 0.75 else conn 1 0 0 1)
    = (st, Ok tt) /\
    fluid_val (st 4) = [("CH4", 0.25%float); ("H2O", 0.75%float)] /\
    fluid_val (st 5) = [("CH4", 0.25%float); ("H2O", 0.75%float)] /\
    fluid_val (st 6) = [("CH4", 0%float); ("H2O", 1%float)].
Proof. eexists. split; [reflexivity|]. by vm_compute. Qed.

(** ** Complete evaluation of the residuals *)

(** Proves [well_formed] of an engine given in full. *)
Ltac well_formed_example :=
  split; [reflexivity|]; split; [reflexivity|]; split; [reflexivity|];
  split; [|split; [|reflexivity]];
  [ let c := fresh "c" in let Hc := fresh "Hc" in
    intros c Hc; cbn in Hc;
    repeat (apply elem_of_cons in Hc as [->|Hc]; [reflexivity|]);
    by apply elem_of_nil in Hc
  | let f := fresh "f" in let Hf := fresh "Hf" in
    intros f Hf; apply list_elem_of_singleton in Hf as ->;
    split; [|reflexivity]; apply elem_of_cons; by left ].

Lemma apply_rows_all (upd : Row * result float -> float -> float)
    (rs : list (Row * result float)) (r : list float) :
  length rs = length r ->
  Forall (fun row => exists v, row.2 = Ok v /\ forall old, upd row old = v) rs ->
  Forall2 (fun row x => row.2 = Ok x) rs (apply_rows upd rs r) /\
  forall r', length r' = length r -> apply_rows upd rs r' = apply_rows upd rs r.
Proof.
  intros Hl Hall. revert r Hl.
  induction Hall as [|row rs (v & Hv & Hu) Hall IH]; intros [|old r] Hl;
    try done.
  - split; [constructor|]. by intros [|? ?].
  - cbn in Hl. destruct (IH r) as [IH1 IH2]; [lia|]. split.
    + cbn. constructor; [by rewrite Hu|done].
    + intros [|old' r'] Hl'; [done|]. cbn. rewrite !Hu. f_equal.
      apply IH2. cbn in Hl'. lia.
Qed.

(** X2.  At an iteration whose number is a multiple of four, or with the flag
    [always_all_equations], [equations] recomputes every row: where the
    load ratio is defined (no design value of [P] is recorded, or one that
    is not zero), the vector it leaves holds the values of the residual
    functions in the order of [rows], whatever the vector held before. *)
Theorem equations_recomputes_all (ext : External) (s : CombustionEngine)
    (r1 r2 : list float) :
  well_formed s -> nonzero_design s = true ->
  it s mod 4 = 0 \/ always_all_equations s = true ->
  length r1 = num_eq s -> length r2 = num_eq s ->
  exists r',
    equations ext s r1 = (r', Ok tt) /\ equations ext s r2 = (r', Ok tt) /\
    Forall2 (fun row x => row.2 = Ok x) (rows ext s) r'.
Proof.
  intros Hwf Hd Hc Hr1 Hr2.
  destruct (equations_run ext s r1 Hwf Hd Hr1) as (Hrun1 & Hlen & Hok).
  destruct (equations_run ext s r2 Hwf Hd Hr2) as (Hrun2 & _ & _).
  assert (forall old, recompute_condition ext s old = true) as Hcond.
  { intros old. unfold recompute_condition.
    destruct Hc as [-> | ->]; cbn; by rewrite ?orb_true_r. }
  destruct (apply_rows_all (update_row ext s) (rows ext s) r1) as [H1 H2];
    [congruence| |].
  { eapply Forall_impl; [exact Hok|]. intros row [v Hv]. exists v.
    split; [done|]. intros old. unfold update_row.
    by rewrite Hv, Hcond, andb_false_r. }
  eexists. split; [exact Hrun1|]. split; [|exact H1].
  rewrite Hrun2. f_equal. apply H2. congruence.
Qed.

Lemma equations_recomputes_all_witness :
  well_formed first_iteration_scenario /\
  exists r',
    equations no_collaborators first_iteration_scenario (replicate 16 0%float)
      = (r', Ok tt) /\
    equations no_collaborators first_iteration_scenario (replicate 16 1%float)
      = (r', Ok tt) /\
    Forall2 (fun row x => row.2 = Ok x)
      (rows no_collaborators first_iteration_scenario) r'.
Proof.
  assert (well_formed first_iteration_scenario) as Hwf by well_formed_example.
  split; [exact Hwf|].
  exact (equations_recomputes_all no_collaborators first_iteration_scenario
           (replicate 16 0%float) (replicate 16 1%float) Hwf eq_refl
           (or_introl eq_refl) eq_refl eq_refl).
Defined.

(** ** Ports the balances need *)

(** X3.  [mass_flow_func] returns three residuals when the engine has its four
    inlets and three outlets, and raises [IndexError] when a port is
    missing; it raises nothing else. *)
Theorem mass_flow_func_ports (s : CombustionEngine) :
  if decide (4 <= length (inl s) /\ 3 <= length (outl s))
  then exists r, mass_flow_func s = Ok r /\ length r = 3
  else mass_flow_func s = Raise IndexError.
Proof.
  unfold mass_flow_func, getidx.
  destruct (inl s) as [|i1 [|i2 [|i3 [|i4 li]]]];
    destruct (outl s) as [|o1 [|o2 [|o3 lo]]]; cbn;
    try (destruct (decide _) as [[? ?]|_]; [lia|done]);
    try (destruct (decide _) as [[? ?]|_]; [cbn in *; lia|done]).
  destruct (decide _) as [_|Hn]; [eauto|]. cbn in Hn. lia.
Qed.

(** ** Missing keys *)

Lemma getitem_cases {A} (d : list (string * A)) (k : string) :
  match getitem d k with
  | Ok _ => contains d k = true
  | Raise e => e = KeyError k /\ contains d k = false
  end.
Proof.
  unfold contains, keys. induction d as [|[k' v] d IH]; cbn; [done|].
  by destruct (String.eqb k k').
Qed.

Lemma contains_elem_of {A} (d : list (string * A)) (k : string) :
  contains d k = true <-> k ∈ keys d.
Proof.
  split; [|apply contains_keys].
  unfold contains. intros (k' & Hk' & ->%String.eqb_eq)%existsb_exists.
  by apply list_elem_of_In.
Qed.

(** How a loop ends: with every element accepted for some accumulator, or
    with the exception the body has raised on one of them. *)
Lemma for_cases {A B} (l : list A) (acc : B) (body : B -> A -> result B) :
  match for_ l acc body with
  | Ok _ => Forall (fun x => exists a b, body a x = Ok b) l
  | Raise e => exists a x, x ∈ l /\ body a x = Raise e
  end.
Proof.
  revert acc. induction l as [|x l IH]; intros acc; cbn; [constructor|].
  destruct (body acc x) as [acc'|e] eqn:E; cbn.
  - specialize (IH acc'). destruct (for_ l acc' body) as [b|e].
    + constructor; eauto.
    + destruct IH as (a & y & Hy & Hb). exists a, y. split; [|done].
      apply elem_of_cons. by right.
  - exists acc, x. split; [|done]. apply elem_of_cons. by left.
Qed.

(** *** Composition of the cooling loops *)

Lemma loop_residuals_run (i o : Connection) (l : list (string * float))
    (acc : list float) :
  match for_ l acc (fun residual '(fluid, x) =>
          y ← getitem (fluid_val o) fluid;
          mret (residual ++ [(x - y)%float])) with
  | Ok r =>
      r = acc ++ ((fun y => (y.2 - fraction o y.1)%float) <$> l) /\
      forall f, f ∈ l.*1 -> f ∈ keys (fluid_val o)
  | Raise e =>
      exists f, e = KeyError f /\ f ∈ l.*1 /\ f ∉ keys (fluid_val o)
  end.
Proof.
  revert acc. induction l as [|[f x] l IH]; intros acc; cbn.
  - split; [by rewrite app_nil_r|]. intros f Hf. by apply elem_of_nil in Hf.
  - pose proof (getitem_cases (fluid_val o) f) as Hg.
    destruct (getitem (fluid_val o) f) as [y|e] eqn:E; cbn.
    + specialize (IH (acc ++ [(x - y)%float])).
      destruct (for_ l _ _) as [r|e].
      * destruct IH as [-> Hk]. split.
        -- rewrite <- app_assoc. cbn. unfold fraction. by rewrite E.
        -- intros f' [->|Hf']%elem_of_cons; [|by apply Hk].
           by apply contains_elem_of.
      * destruct IH as (f' & -> & Hf' & Hn). exists f'.
        split; [done|]. split; [|done]. apply elem_of_cons. by right.
    + destruct Hg as [-> Hc]. exists f. split; [done|].
      split; [apply elem_of_cons; by left|].
      intros Hin%contains_elem_of. congruence.
Qed.

(** X4.  With its two cooling inlets and outlets, [fluid_func] returns the
    residuals of the first loop followed by those of the second, one for
    each fluid of the inlet in the order of its dictionary, when every
    fluid of an inlet is a fluid of the outlet of its loop; otherwise it
    raises [KeyError] with a fluid an inlet has and its outlet has not. *)
Theorem fluid_func_cases (s : CombustionEngine)
    (i1 i2 o1 o2 : Connection) (li lo : list Connection) :
  inl s = i1 :: i2 :: li -> outl s = o1 :: o2 :: lo ->
  match fluid_func s with
  | Ok r =>
      r = loop_residuals i1 o1 ++ loop_residuals i2 o2 /\
      keys (fluid_val i1) ⊆ keys (fluid_val o1) /\
      keys (fluid_val i2) ⊆ keys (fluid_val o2)
  | Raise e =>
      exists f, e = KeyError f /\
        (f ∈ keys (fluid_val i1) /\ f ∉ keys (fluid_val o1) \/
         f ∈ keys (fluid_val i2) /\ f ∉ keys (fluid_val o2))
  end.
Proof.
  intros Hi Ho. unfold fluid_func. rewrite Hi, Ho.
  cbn [seq for_ getidx lookup list_lookup mbind result_bind].
  pose proof (loop_residuals_run i1 o1 (fluid_val i1) []) as H1.
  destruct (for_ (fluid_val i1) [] _) as [r1|e] eqn:E1;
    cbn [mbind result_bind].
  - destruct H1 as [-> Hk1].
    pose proof (loop_residuals_run i2 o2 (fluid_val i2)
                  ([] ++ ((fun y => (y.2 - fraction o1 y.1)%float)
                            <$> fluid_val i1))) as H2.
    destruct (for_ (fluid_val i2) _ _) as [r2|e] eqn:E2;
      cbn [mbind result_bind].
    + destruct H2 as [-> Hk2]. repeat split; done.
    + destruct H2 as (f & -> & Hf & Hn). exists f. split; [done|]. by right.
  - destruct H1 as (f & -> & Hf & Hn). exists f. split; [done|]. by left.
Qed.

Lemma fluid_func_cases_witness :
  exists r, fluid_func mass_flow_scenario = Ok r /\ length r = 4.
Proof.
  pose proof (fluid_func_cases mass_flow_scenario _ _ _ _ _ _ eq_refl eq_refl)
    as H.
  destruct (fluid_func mass_flow_scenario) as [r|e] eqn:E.
  - exists r. split; [reflexivity|]. destruct H as [-> _]. reflexivity.
  - exfalso. vm_compute in E. discriminate E.
Defined.

(** *** Thermal input *)

(** X5.  [calc_ti] returns when every fuel has an entry in [self.fuels] and a
    mass fraction at every combustion port, [self.inl[2:]] and
    [self.outl[2:]]; otherwise it raises [KeyError] with the name of a fuel
    that has none.  It raises nothing else: the slices are empty where
    ports are missing. *)
Theorem calc_ti_cases (s : CombustionEngine) :
  match calc_ti s with
  | Ok _ => fuels_known s (drop 2 (inl s) ++ drop 2 (outl s)) = true
  | Raise e =>
      exists f, e = KeyError f /\ f ∈ fuel_list s /\
        (contains (fuels s) f = false \/
         exists c, c ∈ drop 2 (inl s) ++ drop 2 (outl s) /\
           contains (fluid_val c) f = false)
  end.
Proof.
  unfold calc_ti.
  match goal with |- match for_ ?l ?a ?b with _ => _ end =>
    pose proof (for_cases l a b) as H; destruct (for_ l a b) as [t|e] end.
  - unfold fuels_known. apply forallb_forall. intros f Hf%list_elem_of_In.
    rewrite Forall_forall in H. destruct (H f Hf) as (a & b & Hb).
    match type of Hb with context [for_ ?l ?a ?b] =>
      pose proof (for_cases l a b) as H1; destruct (for_ l a b) as [m0|e1];
        [|discriminate Hb] end.
    cbn [mbind result_bind] in Hb.
    match type of Hb with context [for_ ?l ?a ?b] =>
      pose proof (for_cases l a b) as H2; destruct (for_ l a b) as [m1|e2];
        [|discriminate Hb] end.
    cbn [mbind result_bind] in Hb.
    pose proof (getitem_cases (fuels s) f) as H3.
    destruct (getitem (fuels s) f) as [fu|e3]; [|discriminate Hb].
    rewrite H3. cbn. apply forallb_forall. intros c Hc%list_elem_of_In.
    apply elem_of_app in Hc as [Hc|Hc].
    + rewrite Forall_forall in H1. destruct (H1 c Hc) as (a1 & b1 & Hb1).
      pose proof (getitem_cases (fluid_val c) f) as H4.
      by destruct (getitem (fluid_val c) f).
    + rewrite Forall_forall in H2. destruct (H2 c Hc) as (a1 & b1 & Hb1).
      pose proof (getitem_cases (fluid_val c) f) as H4.
      by destruct (getitem (fluid_val c) f).
  - destruct H as (a & f & Hf & Hb). exists f.
    match type of Hb with context [for_ ?l ?a ?b] =>
      pose proof (for_cases l a b) as H1; destruct (for_ l a b) as [m0|e1] end.
    + cbn [mbind result_bind] in Hb.
      match type of Hb with context [for_ ?l ?a ?b] =>
        pose proof (for_cases l a b) as H2;
          destruct (for_ l a b) as [m1|e2] end.
      * cbn [mbind result_bind] in Hb.
        pose proof (getitem_cases (fuels s) f) as H3.
        destruct (getitem (fuels s) f) as [fu|e3]; [discriminate Hb|].
        injection Hb as <-. destruct H3 as [-> H3]. auto.
      * injection Hb as <-. destruct H2 as (a2 & c & Hc & Hb2).
        pose proof (getitem_cases (fluid_val c) f) as H4.
        destruct (getitem (fluid_val c) f) as [x|e4]; [discriminate Hb2|].
        injection Hb2 as <-. destruct H4 as [-> H4].
        split; [done|]. split; [done|]. right. exists c.
        split; [apply elem_of_app; by right|done].
    + injection Hb as <-. destruct H1 as (a1 & c & Hc & Hb1).
      pose proof (getitem_cases (fluid_val c) f) as H4.
      destruct (getitem (fluid_val c) f) as [x|e4]; [discriminate Hb1|].
      injection Hb1 as <-. destruct H4 as [-> H4].
      split; [done|]. split; [done|]. right. exists c.
      split; [apply elem_of_app; by left|done].
Qed.

(** ** What the propagation copies *)

Lemma getitem_elem_of {A} (d : list (string * A)) (k : string) (v : A) :
  getitem d k = Ok v -> (k, v) ∈ d.
Proof.
  induction d as [|[k' v'] d IH]; cbn; [done|].
  destruct (String.eqb_spec k k') as [->|Hne].
  - intros [= ->]. apply elem_of_cons. by left.
  - intros Hg. apply elem_of_cons. right. by apply IH.
Qed.

Lemma store_fluid_self (dst : nat) (fluid : string) (x : float) (st : Store) :
  (store_fluid dst fluid x st).1 dst
  = with_fluid_val (st dst) (setitem (fluid_val (st dst)) fluid x).
Proof. unfold store_fluid. cbn. by rewrite Nat.eqb_refl. Qed.

Section Copy.

Variable dst : nat.

(** The body of the loop over the items. *)
Local Abbreviation copy_item := (fun (_ : unit) '(fluid, x) =>
    b ← read (fun st : Store => getitem (fluid_val_set (st dst)) fluid);
    g ← read (fun st : Store => Ok (good_starting_values (st dst)));
    when_ (negb b && negb g) (store_fluid dst fluid x)).

Lemma copy_item_run (fluid : string) (x : float) (st : Store) :
  match getitem (fluid_val_set (st dst)) fluid with
  | Ok b =>
      copy_item tt (fluid, x) st
      = (if negb b && negb (good_starting_values (st dst))
         then (store_fluid dst fluid x st).1 else st, Ok tt)
  | Raise e => copy_item tt (fluid, x) st = (st, Raise e)
  end.
Proof.
  unfold read, mbind, M_bind.
  destruct (getitem (fluid_val_set (st dst)) fluid) as [b|e]; [|done].
  unfold when_. by destruct (negb b && negb (good_starting_values (st dst))).
Qed.

Lemma copy_loop_keeps (items : list (string * float)) (st : Store) :
  let st' := (forM items tt copy_item st).1 in
  (forall c, c <> dst -> st' c = st c) /\
  (m (st' dst) = m (st dst) /\ p (st' dst) = p (st dst) /\
   h (st' dst) = h (st dst) /\
   fluid_val_set (st' dst) = fluid_val_set (st dst) /\
   good_starting_values (st' dst) = good_starting_values (st dst)) /\
  (good_starting_values (st dst) = true -> st' = st) /\
  (forall f, getitem (fluid_val_set (st dst)) f = Ok true ->
     getitem (fluid_val (st' dst)) f = getitem (fluid_val (st dst)) f).
Proof.
  cbv zeta.
  apply (forM_inv (fun st' : Store =>
    (forall c, c <> dst -> st' c = st c) /\
    (m (st' dst) = m (st dst) /\ p (st' dst) = p (st dst) /\
     h (st' dst) = h (st dst) /\
     fluid_val_set (st' dst) = fluid_val_set (st dst) /\
     good_starting_values (st' dst) = good_starting_values (st dst)) /\
    (good_starting_values (st dst) = true -> st' = st) /\
    (forall f, getitem (fluid_val_set (st dst)) f = Ok true ->
       getitem (fluid_val (st' dst)) f = getitem (fluid_val (st dst)) f)));
    [|done].
  intros [] [fluid x] st0 _ Hinv.
  pose proof Hinv as (Ho & (Hm & Hp & Hh & Hs & Hg) & Hgood & Hset).
  pose proof (copy_item_run fluid x st0) as Hrun.
  set (g := good_starting_values (st0 dst)) in Hrun.
  assert (good_starting_values (st0 dst) = g) as Eg by reflexivity.
  clearbody g.
  destruct (getitem (fluid_val_set (st0 dst)) fluid) as [b|e] eqn:Eb;
    rewrite Hrun; [|exact Hinv].
  destruct b; cbn [negb andb]; [exact Hinv|].
  destruct g; cbn [negb]; [exact Hinv|]. cbn [fst].
  split; [|split; [|split]].
  - intros c Hc. rewrite store_fluid_other by done. by apply Ho.
  - rewrite store_fluid_self. by cbn.
  - intros Ht. congruence.
  - intros f Hf. rewrite store_fluid_self. cbn [fluid_val with_fluid_val].
    rewrite getitem_setitem_ne; [by apply Hset|].
    intros ->. rewrite Hs in Eb. congruence.
Qed.

Lemma copy_loop_cases (items : list (string * float)) (st : Store) :
  NoDup items.*1 ->
  match forM items tt copy_item st with
  | (st', Ok _) =>
      (forall f, f ∈ items.*1 -> contains (fluid_val_set (st dst)) f = true) /\
      (forall f x, (f, x) ∈ items ->
         getitem (fluid_val_set (st dst)) f = Ok false ->
         good_starting_values (st dst) = false ->
         getitem (fluid_val (st' dst)) f = Ok x) /\
      (forall f, f ∉ items.*1 ->
         getitem (fluid_val (st' dst)) f = getitem (fluid_val (st dst)) f) /\
      fluid_val_set (st' dst) = fluid_val_set (st dst) /\
      good_starting_values (st' dst) = good_starting_values (st dst)
  | (st', Raise e) =>
      exists f, e = KeyError f /\ f ∈ items.*1 /\
        contains (fluid_val_set (st dst)) f = false
  end.
Proof.
  revert st. induction items as [|[fluid x] items IH]; intros st Hnd.
  - cbn. repeat split; try done.
    + intros f Hf. by apply elem_of_nil in Hf.
    + intros f y Hf. by apply elem_of_nil in Hf.
  - cbn [fmap list_fmap fst] in Hnd. apply NoDup_cons in Hnd as [Hnin Hnd].
    cbn [forM]. unfold mbind at 1, M_bind at 1.
    pose proof (copy_item_run fluid x st) as Hrun.
    pose proof (getitem_cases (fluid_val_set (st dst)) fluid) as Hc.
    destruct (getitem (fluid_val_set (st dst)) fluid) as [b|e] eqn:Eb;
      rewrite Hrun.
    + set (st1 := if negb b && negb (good_starting_values (st dst))
                  then (store_fluid dst fluid x st).1 else st).
      assert (fluid_val_set (st1 dst) = fluid_val_set (st dst) /\
              good_starting_values (st1 dst) = good_starting_values (st dst))
        as [Hs1 Hg1].
      { subst st1. destruct (negb b && negb _); [|done].
        by rewrite store_fluid_self. }
      assert (forall f, f <> fluid ->
                getitem (fluid_val (st1 dst)) f
                = getitem (fluid_val (st dst)) f) as Hv1.
      { intros f Hf. subst st1. destruct (negb b && negb _); [|done].
        rewrite store_fluid_self. cbn [fluid_val with_fluid_val].
        by rewrite getitem_setitem_ne. }
      specialize (IH st1 Hnd).
      destruct (forM items tt _ st1) as [st' [[]|e]].
      * destruct IH as (Hk & Hcp & Hot & Hs & Hg).
        rewrite Hs1 in Hk, Hcp, Hs. rewrite Hg1 in Hcp, Hg.
        split; [|split; [|split; [|done]]].
        -- intros f [->|Hf]%elem_of_cons; [done|by apply Hk].
        -- intros f y [[= -> ->]|Hf]%elem_of_cons Hb Hgd.
           ++ rewrite Hot by done. subst st1.
              rewrite Hb in Eb. injection Eb as <-. rewrite Hgd. cbn [negb andb].
              rewrite store_fluid_self. cbn [fluid_val with_fluid_val].
              apply getitem_setitem_eq.
           ++ by apply Hcp.
        -- intros f Hf. rewrite Hot.
           ++ apply Hv1. intros ->. apply Hf. apply elem_of_cons. by left.
           ++ intros Hin. apply Hf. apply elem_of_cons. by right.
      * destruct IH as (f & -> & Hf & Hn). exists f. split; [done|].
        split; [apply elem_of_cons; by right|]. by rewrite <- Hs1.
    + destruct Hc as [-> Hc]. exists fluid. split; [done|].
      split; [apply elem_of_cons; by left|done].
Qed.

End Copy.

(** X6.  The loop of the two propagation methods writes nothing but the
    composition of the connection it copies to: the other connections,
    and the mass flow, pressure, enthalpy and flags of that connection,
    stay; with good starting values nothing at all is written; and a
    fraction the user has set is never overwritten. *)
Theorem copy_fluid_keeps (src dst : nat) (st : Store) :
  let st' := (copy_fluid src dst st).1 in
  (forall c, c <> dst -> st' c = st c) /\
  (m (st' dst) = m (st dst) /\ p (st' dst) = p (st dst) /\
   h (st' dst) = h (st dst) /\
   fluid_val_set (st' dst) = fluid_val_set (st dst) /\
   good_starting_values (st' dst) = good_starting_values (st dst)) /\
  (good_starting_values (st dst) = true -> st' = st) /\
  (forall f, getitem (fluid_val_set (st dst)) f = Ok true ->
     getitem (fluid_val (st' dst)) f = getitem (fluid_val (st dst)) f).
Proof.
  unfold copy_fluid, read. unfold mbind at 1, M_bind at 1.
  apply copy_loop_keeps.
Qed.

(** X7.  With the keys of the source distinct, as in a dictionary, the loop
    ends without an exception exactly when the target has a flag for every
    fluid of the source, and then every fluid of the source that is not
    set at the target, a target without good starting values, has the
    fraction of the source there; otherwise it raises [KeyError] with a
    fluid the target has no flag for. *)
Theorem copy_fluid_cases (src dst : nat) (st : Store) :
  NoDup (keys (fluid_val (st src))) ->
  match copy_fluid src dst st with
  | (st', Ok _) =>
      (forall f, f ∈ keys (fluid_val (st src)) ->
         contains (fluid_val_set (st dst)) f = true) /\
      (forall f x, getitem (fluid_val (st src)) f = Ok x ->
         getitem (fluid_val_set (st dst)) f = Ok false ->
         good_starting_values (st dst) = false ->
         getitem (fluid_val (st' dst)) f = Ok x)
  | (st', Raise e) =>
      exists f, e = KeyError f /\ f ∈ keys (fluid_val (st src)) /\
        contains (fluid_val_set (st dst)) f = false
  end.
Proof.
  intros Hnd. unfold copy_fluid, read. unfold mbind at 1, M_bind at 1.
  pose proof (copy_loop_cases dst (fluid_val (st src)) st Hnd) as H.
  destruct (forM (fluid_val (st src)) tt _ st) as [st' [[]|e]]; [|done].
  destruct H as (Hk & Hcp & _). split; [done|].
  intros f x Hx. apply Hcp. by apply getitem_elem_of.
Qed.

Lemma copy_fluid_cases_witness :
  exists st',
    copy_fluid 0 4
      (fun c => if Nat.eqb c 0 then conn 1 0 0.25 0.75 else conn 1 0 0 1)
    = (st', Ok tt) /\
    getitem (fluid_val (st' 4)) "CH4" = Ok 0.25%float.
Proof.
  pose proof (copy_fluid_cases 0 4
    (fun c => if Nat.eqb c 0 then conn 1 0 0.25 0.75 else conn 1 0 0 1)) as H.
  destruct (copy_fluid 0 4 _) as [st' [[]|e]] eqn:E.
  - exists st'. split; [reflexivity|].
    destruct H as [_ H].
    + cbn. repeat constructor; set_solver.
    + by apply H.
  - exfalso. vm_compute in E. discriminate E.
Defined.

(** ** What the starting values overwrite *)

Lemma keys_setitem {A} (d : list (string * A)) (k : string) (v : A) :
  k ∈ keys d -> keys (setitem d k v) = keys d.
Proof.
  unfold keys. induction d as [|[k' v'] d IH]; cbn.
  - intros Hk. by apply elem_of_nil in Hk.
  - destruct (String.eqb_spec k k') as [->|Hne]; [done|].
    intros [?|Hk]%elem_of_cons; [done|]. cbn. f_equal. by apply IH.
Qed.

Lemma contains_setitem {A} (d : list (string * A)) (k f : string) (v : A) :
  contains (setitem d k v) f = true -> f = k \/ contains d f = true.
Proof.
  intros Hc. destruct (decide (f = k)) as [|Hne]; [by left|right].
  destruct (getitem_contains _ _ Hc) as [x Hx].
  rewrite getitem_setitem_ne in Hx by done.
  pose proof (getitem_cases d f) as Hg. by rewrite Hx in Hg.
Qed.

(** Takes a chain of bindings that has returned apart. *)
Ltac bind_inversion H :=
  repeat match type of H with
         | mbind _ ?c = Ok _ =>
             let E := fresh "E" in
             destruct c eqn:E; cbn [mbind result_bind] in H;
             [|discriminate H]
         | (let '(_, _) := ?x in _) = Ok _ => destruct x
         end.

Lemma contains_four {A} (a b c d f : string) (x y z w : A) :
  contains (setitem (setitem (setitem (setitem [] a x) b y) c z) d w) f
  = true ->
  f ∈ [a; b; c; d].
Proof.
  intros Hc.
  destruct (contains_setitem _ _ _ _ Hc) as [->|H3]; [set_solver|].
  destruct (contains_setitem _ _ _ _ H3) as [->|H2]; [set_solver|].
  destruct (contains_setitem _ _ _ _ H2) as [->|H1]; [set_solver|].
  destruct (contains_setitem _ _ _ _ H1) as [->|H0]; [set_solver|].
  discriminate H0.
Qed.

Lemma flue_gas_keys (ext : External) (s : CombustionEngine)
    (fg : list (string * float)) (f : string) :
  flue_gas ext s = Ok fg -> contains fg f = true ->
  f ∈ [n2 s; co2 s; o2 s; h2o s].
Proof.
  unfold flue_gas. cbv zeta. intros Hfg Hc. bind_inversion Hfg.
  unfold mret, result_ret in Hfg. injection Hfg as <-.
  by apply contains_four in Hc.
Qed.

Section Guess.

Variable fg : list (string * float).
Variable o : nat.

(** The body of the loop over the items of [o.fluid.val]. *)
Local Abbreviation guess_item := (fun (_ : unit) '(fluid, x) =>
    b ← read (fun st : Store => getitem (fluid_val_set (st o)) fluid);
    when_ (negb b && contains fg fluid)
      (y ← lift (getitem fg fluid);
       store_fluid o fluid y)).

Lemma guess_item_run (fluid : string) (x : float) (st : Store) (b : bool) :
  getitem (fluid_val_set (st o)) fluid = Ok b ->
  fluid ∈ keys (fluid_val (st o)) ->
  exists st1,
    guess_item tt (fluid, x) st = (st1, Ok tt) /\
    (forall c, c <> o -> st1 c = st c) /\
    (m (st1 o) = m (st o) /\ p (st1 o) = p (st o) /\ h (st1 o) = h (st o) /\
     fluid_val_set (st1 o) = fluid_val_set (st o) /\
     good_starting_values (st1 o) = good_starting_values (st o)) /\
    keys (fluid_val (st1 o)) = keys (fluid_val (st o)) /\
    getitem (fluid_val (st1 o)) fluid = guess fg o st fluid /\
    forall f, f <> fluid ->
      getitem (fluid_val (st1 o)) f = getitem (fluid_val (st o)) f.
Proof.
  intros Hb Hk. unfold read, mbind, M_bind, when_, guess. rewrite Hb.
  pose proof (getitem_cases fg fluid) as Hc.
  destruct (getitem fg fluid) as [y|e] eqn:Ey.
  - rewrite Hc. destruct b; cbn [negb andb].
    + exists st. by repeat split.
    + unfold lift. exists (store_fluid o fluid y st).1.
      split; [done|]. split; [intros c Hne; by apply store_fluid_other|].
      rewrite store_fluid_self. cbn [m p h fluid_val fluid_val_set
                                       good_starting_values with_fluid_val].
      split; [done|]. split; [by apply keys_setitem|].
      split; [apply getitem_setitem_eq|].
      intros f Hf. by apply getitem_setitem_ne.
  - destruct Hc as [_ ->]. rewrite andb_false_r.
    exists st. repeat split; try done. by destruct b.
Qed.

Lemma guess_loop (items : list (string * float)) (st : Store) :
  (forall f, f ∈ items.*1 -> contains (fluid_val_set (st o)) f = true) ->
  (forall f, f ∈ items.*1 -> f ∈ keys (fluid_val (st o))) ->
  exists st',
    forM items tt guess_item st = (st', Ok tt) /\
    (forall c, c <> o -> st' c = st c) /\
    (m (st' o) = m (st o) /\ p (st' o) = p (st o) /\ h (st' o) = h (st o) /\
     fluid_val_set (st' o) = fluid_val_set (st o) /\
     good_starting_values (st' o) = good_starting_values (st o)) /\
    keys (fluid_val (st' o)) = keys (fluid_val (st o)) /\
    forall f,
      getitem (fluid_val (st' o)) f
      = if decide (f ∈ items.*1) then guess fg o st f
        else getitem (fluid_val (st o)) f.
Proof.
  revert st. induction items as [|[fluid x] items IH]; intros st Hset Hkeys.
  - exists st. do 4 (split; [done|]). intros f.
    destruct (decide (f ∈ [])) as [Hf|_]; [|done]. by apply elem_of_nil in Hf.
  - cbn [fmap list_fmap fst] in Hset, Hkeys.
    destruct (getitem_contains _ _ (Hset fluid ltac:(set_solver))) as [b Hb].
    destruct (guess_item_run fluid x st b Hb (Hkeys fluid ltac:(set_solver)))
      as (st1 & Hrun & Ho1 & Hsc1 & Hk1 & Hg1 & Hv1).
    pose proof Hsc1 as (Hm1 & Hp1 & Hh1 & Hs1 & Hgs1).
    destruct (IH st1) as (st' & Hrun' & Ho' & Hsc' & Hk' & Hv').
    { intros f Hf. rewrite Hs1. apply Hset. set_solver. }
    { intros f Hf. rewrite Hk1. apply Hkeys. set_solver. }
    exists st'. split.
    { cbn [forM]. unfold mbind at 1, M_bind at 1. by rewrite Hrun. }
    split; [intros c Hc; rewrite Ho', Ho1; done|].
    split; [destruct Hsc' as (? & ? & ? & ? & ?); repeat split; congruence|].
    split; [congruence|].
    intros f. rewrite Hv'. cbn [fmap list_fmap fst].
    assert (guess fg o st1 f = if decide (f = fluid) then guess fg o st f
                          else guess fg o st f) as Hgf.
    { unfold guess. rewrite Hs1.
      destruct (decide (f = fluid)) as [->|Hne].
      - rewrite Hg1. unfold guess. rewrite Hb.
        destruct b; [done|]. by destruct (getitem fg fluid).
      - by rewrite Hv1. }
    destruct (decide (f ∈ items.*1)) as [Hin|Hnin].
    + rewrite decide_True by set_solver. rewrite Hgf. by destruct (decide _).
    + destruct (decide (f = fluid)) as [->|Hne].
      * rewrite decide_True by set_solver. exact Hg1.
      * rewrite decide_False by set_solver. by apply Hv1.
Qed.

End Guess.

(** X8.  When the starting values are computed and the flue gas connection
    [self.outl[2]] has a flag for each of its fluids, [initialise_fluids]
    writes into that connection and only into its composition: the other
    connections, and mass flow, pressure, enthalpy and flags of this one,
    stay, the fluids and their order stay, the fraction of a fluid stays
    when the user has set it or when the fluid is none of nitrogen, carbon
    dioxide, oxygen and water, and a fraction that is not set becomes the
    computed one.  On the store so written the method ends as
    [propagate_fluid_to_target] of the target of the flue gas connection
    does, called with that connection and with the target as the starting
    point: what that call writes or raises is what the method writes or
    raises. *)
Theorem initialise_fluids_frame (ext : External) (s : CombustionEngine)
    (call : nat -> nat -> nat -> M Store unit) (net : Topology)
    (outl : list nat) (fg : list (string * float)) (o : nat) (st : Store) :
  flue_gas ext s = Ok fg -> getidx outl 2 = Ok o ->
  (forall f, f ∈ keys (fluid_val (st o)) ->
     contains (fluid_val_set (st o)) f = true) ->
  exists st',
    initialise_fluids ext s call net outl st
    = call (target net o) o (target net o) st' /\
    (forall c, c <> o -> st' c = st c) /\
    (m (st' o) = m (st o) /\ p (st' o) = p (st o) /\ h (st' o) = h (st o) /\
     fluid_val_set (st' o) = fluid_val_set (st o) /\
     good_starting_values (st' o) = good_starting_values (st o)) /\
    keys (fluid_val (st' o)) = keys (fluid_val (st o)) /\
    (forall f,
       getitem (fluid_val_set (st o)) f = Ok true \/
       f ∉ [n2 s; co2 s; o2 s; h2o s] ->
       getitem (fluid_val (st' o)) f = getitem (fluid_val (st o)) f) /\
    (forall f y,
       f ∈ keys (fluid_val (st o)) ->
       getitem (fluid_val_set (st o)) f = Ok false ->
       getitem fg f = Ok y ->
       getitem (fluid_val (st' o)) f = Ok y).
Proof.
  intros Hfg Ho Hflags.
  destruct (guess_loop fg o (fluid_val (st o)) st)
    as (st' & Hrun & Hother & Hsc & Hk & Hv).
  { exact Hflags. }
  { done. }
  exists st'. split.
  { unfold initialise_fluids. rewrite Hfg, Ho.
    rewrite run_bind. unfold lift at 1. cbv beta iota.
    rewrite run_bind. unfold lift at 1. cbv beta iota.
    rewrite run_bind. unfold read at 1. cbv beta iota.
    rewrite run_bind. by rewrite Hrun. }
  split; [done|]. split; [done|]. split; [done|]. split.
  - intros f Hf. rewrite Hv. destruct (decide _) as [_|_]; [|done].
    unfold guess. destruct Hf as [->|Hf]; [done|].
    destruct (getitem (fluid_val_set (st o)) f) as [[|]|e]; try done.
    pose proof (getitem_cases fg f) as Hc.
    destruct (getitem fg f) as [y|e]; [|done].
    exfalso. apply Hf. by apply (flue_gas_keys ext s fg).
  - intros f y Hf Hs Hy. rewrite Hv.
    rewrite decide_True by done. unfold guess. by rewrite Hs, Hy.
Qed.

Lemma initialise_fluids_frame_witness :
  exists st',
    initialise_fluids no_collaborators mass_flow_scenario
      (propagate_fluid_to_target 3 cooling_circuit) cooling_circuit [4; 5; 6]
      ring_store
    = propagate_fluid_to_target 3 cooling_circuit 2 6 2 st' /\
    st' 4 = ring_store 4 /\
    getitem (fluid_val (st' 6)) "CH4" = Ok 0%float.
Proof.
  destruct (flue_gas no_collaborators mass_flow_scenario) as [fg|e] eqn:E.
  - destruct (initialise_fluids_frame no_collaborators mass_flow_scenario
                (propagate_fluid_to_target 3 cooling_circuit) cooling_circuit
                [4; 5; 6] fg 6 ring_store E eq_refl)
      as (st' & Hrun & Hother & _ & _ & Hkeep & _).
    + intros f Hf. cbn in Hf.
      repeat (apply elem_of_cons in Hf as [->|Hf]; [reflexivity|]).
      by apply elem_of_nil in Hf.
    + exists st'. split; [exact Hrun|]. split; [by apply Hother|].
      rewrite Hkeep; [reflexivity|]. right. cbn. set_solver.
  - exfalso. vm_compute in E. discriminate E.
Defined.

(** ** [derivatives] within the shape of the Jacobian *)










Section Returns.

Variable ext : External.
Variable s : CombustionEngine.
Variable increment_filter : list (list bool).

Hypothesis Hwf : well_formed s.
Hypothesis HV : num_nw_vars s = num_nw_fluids s + 3.
Hypothesis HP : is_var (P s) = true -> var_pos (P s) < num_vars s.
Hypothesis HQ : is_var (Qloss s) = true -> var_pos (Qloss s) < num_vars s.
Hypothesis Hnd : forall f i,
  length (numeric_deriv_fluid ext s f i) = num_nw_fluids s.
Hypothesis Hrb : forall i fluid,
  length (rb_numeric_deriv_fluid ext s i fluid) = num_nw_fluids s.
Hypothesis Hf7 : 7 <= length increment_filter.
Hypothesis Hf3 : Forall (fun row => 3 <= length row) increment_filter.

Local Abbreviation ok c Q :=
  (safe (num_eq s) (7 + num_vars s) (num_nw_vars s) c Q).





End Returns.



(** ** Entries of the constant blocks *)

Lemma entries_zeros3 (a b c : nat) :
  entries a b c (zeros3 a b c) (fun _ _ _ => 0%float).
Proof.
  split; [apply rect_zeros3|]. intros k i j Hk Hi Hj.
  unfold cell, zeros3, zeros. rewrite lookup_replicate_2 by done. cbn.
  rewrite lookup_replicate_2 by done. cbn. by rewrite lookup_replicate_2.
Qed.

Lemma entries_ext (a b c : nat) (J : Jac) (g g' : nat -> nat -> nat -> float) :
  entries a b c J g ->
  (forall k i j, k < a -> i < b -> j < c -> g k i j = g' k i j) ->
  entries a b c J g'.
Proof.
  intros [HJ Hg] Hext. split; [done|]. intros k i j Hk Hi Hj.
  rewrite Hg by done. f_equal. by apply Hext.
Qed.

Lemma fills_jset (a b c k i j : nat) (v : float)
    (g : nat -> nat -> nat -> float) :
  k < a -> i < b -> j < c ->
  fills a b c (jset k i j v) g (entry_set g k i j v).
Proof.
  intros Hk Hi Hj J [HJ Hg].
  destruct (rect_row _ _ _ k _ HJ Hk) as (row & Hrow & Hsh).
  destruct (shape2_col _ _ i _ Hsh Hi) as (Hlr & col & Hcol & Hlc).
  pose proof (rect_length _ _ _ _ HJ) as HlJ.
  exists (<[k := <[i := <[j := v]> col]> row]> J).
  split; [|split].
  - unfold jset, update, set3, getidx, setidx. rewrite Hrow. cbn.
    rewrite Hcol. cbn. rewrite decide_True by lia. cbn.
    rewrite decide_True by lia. cbn. by rewrite decide_True by lia.
  - eapply rect_insert; [done..|]. by rewrite length_insert.
  - intros k' i' j' Hk' Hi' Hj'. unfold entry_set.
    pose proof (Hg k' i' j' Hk' Hi' Hj') as Hold. unfold cell in *.
    destruct (decide (k' = k)) as [->|Hnk].
    + rewrite list_lookup_insert_eq by lia. rewrite Hrow in Hold.
      cbn in *.
      destruct (decide (i' = i)) as [->|Hni].
      * rewrite list_lookup_insert_eq by lia. rewrite Hcol in Hold.
        cbn in *.
        destruct (decide (j' = j)) as [->|Hnj].
        -- rewrite list_lookup_insert_eq by lia. by rewrite decide_True.
        -- rewrite list_lookup_insert_ne by done.
           rewrite decide_False; [done|]. by intros (_ & _ & ?).
      * rewrite list_lookup_insert_ne by done.
        rewrite decide_False; [done|]. by intros (_ & ? & _).
    + rewrite list_lookup_insert_ne by done.
      rewrite decide_False; [done|]. by intros (? & _ & _).
Qed.

Lemma fills_seq (a b c : nat) (m1 m2 : M Jac unit)
    (g0 g1 g2 : nat -> nat -> nat -> float) :
  fills a b c m1 g0 g1 -> fills a b c m2 g1 g2 ->
  fills a b c (m1;; m2) g0 g2.
Proof.
  intros H1 H2 J HJ. destruct (H1 J HJ) as (J1 & E1 & HJ1).
  destruct (H2 J1 HJ1) as (J2 & E2 & HJ2).
  exists J2. unfold mbind, M_bind. by rewrite E1.
Qed.

Lemma fills_conseq (a b c : nat) (m : M Jac unit)
    (g0 g0' g1 g1' : nat -> nat -> nat -> float) :
  fills a b c m g0' g1' ->
  (forall k i j, k < a -> i < b -> j < c -> g0 k i j = g0' k i j) ->
  (forall k i j, k < a -> i < b -> j < c -> g1' k i j = g1 k i j) ->
  fills a b c m g0 g1.
Proof.
  intros Hm Hpre Hpost J HJ.
  destruct (Hm J (entries_ext _ _ _ _ _ _ HJ Hpre)) as (J' & E & HJ').
  exists J'. split; [done|]. by apply (entries_ext _ _ _ _ g1').
Qed.

Lemma fills_post (a b c : nat) (m : M Jac unit)
    (g0 g1 g1' : nat -> nat -> nat -> float) :
  fills a b c m g0 g1' ->
  (forall k i j, k < a -> i < b -> j < c -> g1' k i j = g1 k i j) ->
  fills a b c m g0 g1.
Proof. intros Hm Hpost. by apply (fills_conseq _ _ _ _ _ g0 _ g1'). Qed.

Lemma fills_ret (a b c : nat) (x : unit) (g : nat -> nat -> nat -> float) :
  fills a b c (mret x) g g.
Proof. intros J HJ. exists J. by destruct x. Qed.

Lemma fills_bind (a b c : nat) (m : M Jac unit) (f : unit -> M Jac unit)
    (g0 g1 g2 : nat -> nat -> nat -> float) :
  fills a b c m g0 g1 -> (forall x, fills a b c (f x) g1 g2) ->
  fills a b c (m ≫= f) g0 g2.
Proof.
  intros H1 H2 J HJ. destruct (H1 J HJ) as (J1 & E1 & HJ1).
  destruct (H2 tt J1 HJ1) as (J2 & E2 & HJ2).
  exists J2. unfold mbind, M_bind. by rewrite E1.
Qed.

(** One step through a sequence of assignments to entries. *)
Ltac fills_step :=
  lazymatch goal with
  | |- fills _ _ _ (mret _) _ _ => apply fills_ret
  | |- fills _ _ _ (jset _ _ _ _) _ _ => apply fills_jset; lia
  | |- fills _ _ _ (@mbind _ _ _ _ _ _) _ _ => eapply fills_bind; [|intros ?]
  end.

Lemma fills_forM_from (a b c : nat) (body : unit -> nat -> M Jac unit)
    (G : nat -> nat -> nat -> nat -> float) (n s : nat) :
  (forall x, s <= x < s + n -> fills a b c (body tt x) (G x) (G (S x))) ->
  fills a b c (forM (seq s n) tt body) (G s) (G (s + n)).
Proof.
  revert s. induction n as [|n IH]; intros s Hb; cbn [seq forM].
  - rewrite Nat.add_0_r. intros J HJ. by exists J.
  - intros J HJ. destruct (Hb s) with (J := J) as (J1 & E1 & HJ1);
      [lia|done|].
    destruct (IH (S s)) with (J := J1) as (J2 & E2 & HJ2); [|done|].
    { intros x Hx. apply Hb. lia. }
    exists J2. unfold mbind, M_bind. rewrite E1.
    replace (s + S n) with (S s + n) by lia. done.
Qed.

Lemma fills_run (a b c : nat) (m : M Jac unit)
    (g : nat -> nat -> nat -> float) :
  fills a b c m (fun _ _ _ => 0%float) g ->
  exists B, run_on (zeros3 a b c) m = Ok B /\ entries a b c B g.
Proof.
  intros Hm. destruct (Hm _ (entries_zeros3 a b c)) as (B & E & HB).
  exists B. unfold run_on. by rewrite E.
Qed.

(** Closes a comparison of two tables of entries by cases. *)
Ltac entry_cases :=
  unfold entry_set, fluid_deriv_entry;
  repeat case_decide; first [reflexivity | exfalso; lia].

(** X10.  With at least the three properties and one fraction per fluid among
    the variables of a port, [fluid_deriv] returns the block of the shape
    [(2 F, 7 + num_vars, num_nw_vars)] that holds the derivatives of the
    residuals of [fluid_func]: in the row of a fluid, 1 at its fraction at
    the inlet of the loop, -1 at its fraction at the outlet, 0 elsewhere.
    The row index the second loop takes over from the first is the right
    one. *)
Theorem fluid_deriv_entries (s : CombustionEngine) :
  num_nw_fluids s + 3 <= num_nw_vars s ->
  exists B,
    fluid_deriv s = Ok B /\
    entries (num_nw_fluids s * 2) (7 + num_vars s) (num_nw_vars s) B
      (fluid_deriv_entry (num_nw_fluids s)).
Proof.
  intros HV. unfold fluid_deriv. apply fills_run. cbv zeta.
  set (F := num_nw_fluids s) in *.
  apply (fills_seq _ _ _ _ _ _
           (fun k i j => if decide (k < F)
                         then fluid_deriv_entry F k i j else 0%float)).
  - eapply fills_conseq.
    + apply (fills_forM_from _ _ _ _
               (fun n k i j => if decide (k < n)
                               then fluid_deriv_entry F k i j else 0%float)
               F 0).
      intros n Hn. eapply fills_conseq.
      * eapply fills_seq; apply fills_jset; lia.
      * intros k i j Hk Hi Hj. reflexivity.
      * intros k i j Hk Hi Hj. entry_cases.
    + intros k i j Hk Hi Hj. entry_cases.
    + intros k i j Hk Hi Hj. entry_cases.
  - eapply fills_conseq.
    + apply (fills_forM_from _ _ _ _
               (fun n k i j => if decide (k < F + n)
                               then fluid_deriv_entry F k i j else 0%float)
               F 0).
      intros n Hn. eapply fills_conseq.
      * eapply fills_seq; apply fills_jset; lia.
      * intros k i j Hk Hi Hj. reflexivity.
      * intros k i j Hk Hi Hj. entry_cases.
    + intros k i j Hk Hi Hj. entry_cases.
    + intros k i j Hk Hi Hj. entry_cases.
Qed.

Lemma fluid_deriv_entries_witness :
  exists B,
    fluid_deriv mass_flow_scenario = Ok B /\
    entries 4 7 5 B (fluid_deriv_entry 2).
Proof.
  apply (fluid_deriv_entries mass_flow_scenario). cbn. lia.
Defined.

(** Cases on the row and the port of an entry of a small block. *)
Ltac small_entry_cases :=
  let k := fresh "k" in let i := fresh "i" in let j := fresh "j" in
  intros k i j ? ? ?;
  unfold entry_set, mass_flow_deriv_entry, pressure_deriv_entry;
  do 3 (try destruct k as [|k]); try lia;
  do 7 (try destruct i as [|i]);
  repeat case_decide; first [reflexivity | exfalso; lia].

(** X11.  With the four inlets counted and a mass flow among the variables of a
    port, [mass_flow_deriv] returns the block of the shape
    [(3, 7 + num_vars, num_nw_vars)] that holds the derivatives of the
    residuals of [mass_flow_func] by the mass flows: 1 at the inlet and -1
    at the outlet of a cooling loop, 1 at the two combustion inlets and
    -1 at the combustion outlet, 0 elsewhere. *)
Theorem mass_flow_deriv_entries (s : CombustionEngine) :
  num_i s = 4 -> 1 <= num_nw_vars s ->
  exists B,
    mass_flow_deriv s = Ok B /\
    entries 3 (7 + num_vars s) (num_nw_vars s) B mass_flow_deriv_entry.
Proof.
  intros Hi HV. unfold mass_flow_deriv. apply fills_run.
  rewrite Hi. cbn [seq forM].
  eapply fills_post; [repeat fills_step|small_entry_cases].
Qed.

Lemma mass_flow_deriv_entries_witness :
  exists B,
    mass_flow_deriv mass_flow_scenario = Ok B /\
    entries 3 7 5 B mass_flow_deriv_entry.
Proof.
  apply (mass_flow_deriv_entries mass_flow_scenario); [reflexivity|cbn; lia].
Defined.

(** X12.  With a pressure among the variables of a port, [pressure_deriv]
    returns the block of the shape [(2, 7 + num_vars, num_nw_vars)] that
    holds the derivatives of the two pressure equations of the combustion:
    1 at the pressure of [in3] in both, -1 at that of [out3] in the first
    and of [in4] in the second, 0 elsewhere. *)
Theorem pressure_deriv_entries (s : CombustionEngine) :
  2 <= num_nw_vars s ->
  exists B,
    pressure_deriv s = Ok B /\
    entries 2 (7 + num_vars s) (num_nw_vars s) B pressure_deriv_entry.
Proof.
  intros HV. unfold pressure_deriv. apply fills_run.
  cbn [seq forM].
  eapply fills_post; [repeat fills_step|small_entry_cases].
Qed.

Lemma pressure_deriv_entries_witness :
  exists B,
    pressure_deriv mass_flow_scenario = Ok B /\
    entries 2 7 5 B pressure_deriv_entry.
Proof.
  apply (pressure_deriv_entries mass_flow_scenario). cbn. lia.
Defined.

(** ** [bus_deriv] within the shape of its matrix *)

Section BusDeriv.

Variable ext : External.
Variable s : CombustionEngine.

Hypothesis HV : 3 <= num_nw_vars s.
Hypothesis HP : is_var (P s) = true -> var_pos (P s) < num_vars s.
Hypothesis Hnd : forall f i,
  length (numeric_deriv_fluid ext s f i) = num_nw_vars s - 3.



End BusDeriv.



(** ** From initialisation to the first iteration *)









(** X15.  Whatever the component and the network, [comp_init] allocates a
    Jacobian of [num_eq] rows, each with one column per port and free
    parameter, [7 + num_vars], of [F + 3] entries: the three constant
    blocks it installs fit their rows. *)
Theorem comp_init_jacobian_shape (ext : External) (s : CombustionEngine)
    (nw : Network) :
  exists init,
    (comp_init ext s nw).2 = Ok init /\
    rect (num_eq (self init)) (7 + num_vars (self init))
         (length (fluids nw) + 3) (jacobian init) /\
    num_nw_vars (self init) = length (fluids nw) + 3.
Proof.
  destruct (comp_init_spec ext s nw)
    as (init & B1 & B2 & B3 & E & _ & _ & HV & _ & _ & _ & _ & _ & HJ & _).
  exists init. rewrite E. split; [done|]. split; [|done]. by rewrite <- HV.
Qed.

(** ** Rows [derivatives] skips *)

Lemma frame_lift_post {A} (n : nat) (r : result A) (Q : A -> Prop) :
  (forall a, r = Ok a -> Q a) -> frame n (lift r) Q.
Proof. intros HQ J. split; [done|]. cbn. apply HQ. Qed.

Lemma unchanged_flt (increment_filter : list (list bool)) (i : nat) (b : bool) :
  unchanged increment_filter i = true ->
  (row ← getidx increment_filter i; getidx row 0) = Ok b -> b = true.
Proof.
  unfold unchanged, getidx.
  destruct (increment_filter !! i) as [row|]; [|done]. cbn.
  destruct (row !! 0) as [b'|]; [|done].
  intros [-> _]%andb_true_iff. by intros [= <-].
Qed.

Lemma unchanged_flt_all (increment_filter : list (list bool)) (i : nat)
    (b : bool) :
  unchanged increment_filter i = true ->
  (row ← getidx increment_filter i; mret (forallb id (drop 3 row))) = Ok b ->
  b = true.
Proof.
  unfold unchanged, getidx.
  destruct (increment_filter !! i) as [row|]; [|done]. cbn.
  destruct (row !! 0) as [b'|]; [|done].
  intros [_ ->]%andb_true_iff. by intros [= <-].
Qed.

Lemma frame_forM_count {A} (n : nat) (l : list A) (k0 : nat)
    (body : nat -> A -> M Jac nat) :
  (forall k x, frame n (body k x) (fun k' => k' = k + 1)) ->
  frame n (forM l k0 body) (fun k' => k' = k0 + length l).
Proof.
  intros Hb. revert k0. induction l as [|x l IH]; intros k0; cbn [forM length].
  - apply frame_ret. lia.
  - eapply frame_bind; [apply Hb|]. intros k ->.
    eapply frame_weaken; [apply IH|]. intros k' ->. lia.
Qed.

(** X16.  When nothing has changed at the three combustion ports, [in3], [in4]
    and [out3], since the last call, [derivatives] leaves the rows of the
    reaction balance as they are, with the constant rows before them:
    the rows [0 .. 3 F + 4]. *)
Theorem derivatives_skips_reaction_rows (ext : External)
    (s : CombustionEngine) (increment_filter : list (list bool)) (J : Jac) :
  num_nw_fluids s = length (nw_fluids s) ->
  unchanged increment_filter 2 = true ->
  unchanged increment_filter 3 = true ->
  unchanged increment_filter 6 = true ->
  take (num_nw_fluids s * 3 + 5) (derivatives ext s increment_filter J).1
  = take (num_nw_fluids s * 3 + 5) J.
Proof.
  intros HF H2 H3 H6.
  assert (frame (num_nw_fluids s * 3 + 5) (derivatives ext s increment_filter)
            (fun _ => True)) as Hfr; [|apply Hfr].
  unfold derivatives. cbv zeta.
  eapply frame_bind.
  - apply frame_forM_count. intros k fluid.
    repeat lazymatch goal with
      | |- frame _ (mret _) (fun _ => True) => by apply frame_ret
      | |- frame _ (mret _) _ => by apply frame_ret
      | |- frame _ (flt _ _ _) _ =>
          apply frame_lift_post; intros ?; apply unchanged_flt; assumption
      | |- frame _ (flt_all _ _) _ =>
          apply frame_lift_post; intros ?; apply unchanged_flt_all;
          assumption
      | |- frame _ (@mbind _ _ bool _ _ _) _ =>
          eapply (frame_bind _ _ _ (fun b => b = true));
          [|intros ? ->; cbn [negb when_]]
      | |- frame _ (@mbind _ _ _ _ _ _) _ =>
          eapply (frame_bind _ _ _ (fun _ => True)); [|intros ? _]
      end.
  - intros k ->.
    repeat lazymatch goal with
      | |- frame _ (char_columns _ _ _ _ _) _ => apply frame_char_columns; lia
      | |- frame _ (zeta_columns _ _ _ _ _ _ _) _ =>
          apply frame_zeta_columns; lia
      | |- _ => frame_step (num_nw_fluids s * 3 + 5)
      end.
Qed.

Lemma derivatives_skips_reaction_rows_witness :
  take 11 (derivatives no_collaborators mass_flow_scenario
             (replicate 7 (replicate 5 true)) (zeros3 16 7 5)).1
  = take 11 (zeros3 16 7 5).
Proof.
  apply (derivatives_skips_reaction_rows no_collaborators mass_flow_scenario);
    reflexivity.
Defined.

(** ** What the energy balance needs *)

Lemma for_total {A B} (l : list A) (acc : B) (body : B -> A -> result B) :
  (forall a x, exists b, body a x = Ok b) -> exists b, for_ l acc body = Ok b.
Proof.
  intros Hb. revert acc. induction l as [|x l IH]; intros acc; cbn; [eauto|].
  destruct (Hb acc x) as [b ->]. cbn. apply IH.
Qed.

(** X17.  [energy_balance] returns when [calc_ti] returns and the engine has
    its two cooling inlets and outlets.  When [calc_ti] raises, it raises
    the same exception, a [KeyError]; otherwise a missing cooling port
    gives [IndexError].  A missing combustion port raises nothing: the
    slices [inl[2:]] and [outl[2:]] are then empty. *)
Theorem energy_balance_cases (ext : External) (s : CombustionEngine) :
  match energy_balance ext s with
  | Ok _ =>
      (exists t, calc_ti s = Ok t) /\
      2 <= length (inl s) /\ 2 <= length (outl s)
  | Raise e =>
      calc_ti s = Raise e \/
      (exists t, calc_ti s = Ok t) /\ e = IndexError /\
      (length (inl s) < 2 \/ length (outl s) < 2)
  end.
Proof.
  unfold energy_balance. cbv zeta.
  destruct (for_total (drop 2 (inl s)) 0%float
              (fun res i => mret (res + m i * (h i - h_mix_pT ext (ref_flow i)
                                                   T_ref true))%float))
    as [r1 ->]; [eauto|].
  cbn [mbind result_bind].
  destruct (for_total (drop 2 (outl s)) r1
              (fun res o => mret (res - m o * (h o - h_mix_pT ext (ref_flow o)
                                                   T_ref true))%float))
    as [r2 ->]; [eauto|].
  cbn [mbind result_bind].
  destruct (calc_ti s) as [t|e]; cbn [mbind result_bind]; [|by left].
  unfold getidx.
  destruct (inl s) as [|i1 [|i2 li]], (outl s) as [|o1 [|o2 lo]]; cbn;
    first [ right; split; [eauto|]; split; [done|]; lia
          | split; [eauto|]; lia ].
Qed.
